(** * SmartMailGuard API: a shallow embedding of [main.py]

    The development follows the layout of the source file:
    - Python string primitives used by the program ([str.lower], [str.strip],
      [str.split], [str.splitlines], [str.endswith], [str(int)]);
    - a small state-and-exception monad in which the effectful functions of the
      program are written ([try]/[except], [print], globals);
    - the loader [update_disposable_list] and the refresh loop;
    - the scoring helpers [interpret_score], [is_suspicious], [is_disposable];
    - [functools.lru_cache] and the memoised [has_mx_record];
    - [validate_email] and the bulk route.

    Strings are Rocq [string]s; a character is read as the Unicode code point
    of the same number (U+0000 .. U+00FF), which is how CPython stores such
    strings.  Sets are stdpp [gset]s, the LRU cache is an association list in
    recency order. *)

From Stdlib Require Import ZArith Ascii String List DecimalString Permutation.
From stdpp Require Import gmap strings list.

Set Warnings "-register-all,-clear-no-such-hyp".

Open Scope string_scope.
Open Scope list_scope.
Open Scope nat_scope.

(** ** Python string primitives *)

Module PyStr.

(** [ord(c)]. *)
Definition ord (c : ascii) : N := N_of_ascii c.

(** Characters with a lowercase mapping in U+0000..U+00FF: [A-Z],
    [U+00C0..U+00D6] and [U+00D8..U+00DE]. *)
Definition is_upper (c : ascii) : bool :=
  let n := ord c in
  ((65 <=? n) && (n <=? 90) || (192 <=? n) && (n <=? 222) && negb (n =? 215))%N.

Definition lower_char (c : ascii) : ascii :=
  if is_upper c then ascii_of_N (ord c + 32) else c.

(** [s.lower()]. *)
Fixpoint lower (s : string) : string :=
  match s with
  | EmptyString => EmptyString
  | String c s' => String (lower_char c) (lower s')
  end.

(** [c.isspace()]: the characters removed by [str.strip()]. *)
Definition isspace (c : ascii) : bool :=
  let n := ord c in
  ((9 <=? n) && (n <=? 13) || (28 <=? n) && (n <=? 32)
   || (n =? 133) || (n =? 160))%N.

Fixpoint lstrip (s : string) : string :=
  match s with
  | EmptyString => EmptyString
  | String c s' => if isspace c then lstrip s' else s
  end.

Fixpoint rstrip (s : string) : string :=
  match s with
  | EmptyString => EmptyString
  | String c s' =>
      match rstrip s' with
      | EmptyString => if isspace c then EmptyString else String c EmptyString
      | r => String c r
      end
  end.

(** [s.strip()]. *)
Definition strip (s : string) : string := rstrip (lstrip s).

(** Python truth value of a string: non-empty. *)
Definition truthy (s : string) : bool :=
  match s with EmptyString => false | String _ _ => true end.

(** [s.split(sep)] for a one-character separator: the fields between the
    occurrences of [sep]; [cur] is the field being read.  The result is never
    the empty list. *)
Fixpoint split_from (sep : ascii) (cur s : string) : list string :=
  match s with
  | EmptyString => [cur]
  | String c s' =>
      if Ascii.eqb c sep then cur :: split_from sep EmptyString s'
      else split_from sep (cur +:+ String c EmptyString) s'
  end.

Definition split (sep : ascii) (s : string) : list string :=
  split_from sep EmptyString s.

(** [l[-1]] on a list of fields.  [split] never returns the empty list, so
    the [IndexError] of Python, which the default stands for, cannot occur. *)
Definition last_item (l : list string) : string := List.last l EmptyString.

(** Line boundaries of [str.splitlines()] among U+0000..U+00FF:
    LF, VT, FF, CR, FS, GS, RS and NEL. *)
Definition is_linebreak (c : ascii) : bool :=
  let n := ord c in
  ((10 <=? n) && (n <=? 13) || (28 <=? n) && (n <=? 30) || (n =? 133))%N.

(** [s.splitlines()]: CR LF counts as one boundary and a final boundary
    opens no further line. *)
Fixpoint splitlines_from (cur s : string) : list string :=
  match s with
  | EmptyString => if truthy cur then [cur] else []
  | String c s' =>
      if is_linebreak c then
        cur :: (if (ord c =? 13)%N then
                  match s' with
                  | String c' s'' =>
                      if (ord c' =? 10)%N then splitlines_from EmptyString s''
                      else splitlines_from EmptyString s'
                  | EmptyString => splitlines_from EmptyString s'
                  end
                else splitlines_from EmptyString s')
      else splitlines_from (cur +:+ String c EmptyString) s'
  end.

Definition splitlines (s : string) : list string := splitlines_from EmptyString s.

(** [s.endswith(suffix)]. *)
Definition endswith (s suffix : string) : bool :=
  let n := String.length s in
  let m := String.length suffix in
  (m <=? n)%nat && String.eqb (substring (n - m) m s) suffix.

(** [str(n)] for an [int]. *)
Definition str_of_int (n : Z) : string := NilZero.string_of_int (Z.to_int n).

End PyStr.

Import PyStr.

(** ** Exceptions and the effect monad *)

(** The failures the program can meet.  Each of them is a subclass of Python's
    [Exception], the class named by the two [except Exception] handlers. *)
Inductive exception :=
  | ConnectionError                 (* requests: the transport failed *)
  | Timeout                         (* requests, dns: the time limit passed *)
  | JSONDecodeError                 (* response.json() on a non-JSON payload *)
  | TypeError                       (* a value of the wrong type *)
  | NXDOMAIN                        (* dns: the name does not exist *)
  | NoAnswer                        (* dns: no MX record in the answer *)
  | NoNameservers                   (* dns: no server could answer *)
  | FormError                       (* dns: malformed response *)
  | OtherException (what : string). (* any other subclass of Exception *)

Inductive result (A : Type) :=
  | Return (a : A)
  | Raise (e : exception).
Arguments Return {A} a.
Arguments Raise {A} e.

(** A computation over a mutable state [S] that returns an [A] or raises.  The
    state reached when an exception is raised is kept: Python does not undo
    the mutations made before a [raise]. *)
Definition Py (S A : Type) : Type := S → result A * S.

#[global] Instance Py_ret {S} : MRet (Py S) := λ A a s, (Return a, s).

#[global] Instance Py_bind {S} : MBind (Py S) := λ A B f m s,
  match m s with
  | (Return a, s') => f a s'
  | (Raise e, s') => (Raise e, s')
  end.

Definition raise {S A} (e : exception) : Py S A := λ s, (Raise e, s).

(** An already computed outcome used as a statement. *)
Definition lift {S A} (r : result A) : Py S A := λ s, (r, s).

Definition gets {S A} (f : S → A) : Py S A := λ s, (Return (f s), s).

Definition modify {S} (f : S → S) : Py S unit := λ s, (Return tt, f s).

(** [try: body  except Exception as e: handler(e)]. *)
Definition try_except {S A} (body : Py S A) (handler : exception → Py S A) : Py S A :=
  λ s, match body s with
       | (Return a, s') => (Return a, s')
       | (Raise e, s') => handler e s'
       end.

(** ** Constants of the module *)

Definition DISPOSABLE_LIST_URLS : list string :=
  [ "https://raw.githubusercontent.com/tompec/disposable-email-domains/main/index.json";
    "https://raw.githubusercontent.com/disposable/disposable-email-domains/master/domains.txt";
    "https://raw.githubusercontent.com/disposable-email-domains/disposable-email-domains/refs/heads/main/disposable_email_blocklist.conf" ].

Definition UPDATE_INTERVAL_SECONDS : Z := 12 * 60 * 60.

Definition suspicious_tlds : gset string :=
  {[ "xyz"; "top"; "tk"; "lol"; "click"; "gq"; "cf" ]}.

(** ** The outside world of the loader *)

(** A decoded JSON document, as [response.json()] returns it. *)
Inductive json_value :=
  | JNull
  | JBool (b : bool)
  | JNumber (n : Z)
  | JString (s : string)
  | JArray (items : list json_value)
  | JObject (members : list (string * json_value)).

(** What the program reads of a [requests.Response]: [json] is the outcome of
    [response.json()], which raises on a payload that is not JSON. *)
Record response := {
  status_code : Z;
  text : string;
  json : result json_value
}.

(** [requests.get(url, timeout=10)]: a response or a transport error. *)
Definition network : Type := string → result response.

(** The three [print] lines of the loader and the one of the scheduler. *)
Inductive line :=
  | LoaderFetched (url : string)
  | LoaderFailed (url : string) (status : Z)
  | LoaderError (url : string) (e : exception)
  | SchedulerUpdating.

(** ** The loader: [update_disposable_list] *)

(** The frame of one call: the local [disposable_set] and the output written
    so far. *)
Record loader := {
  disposable_set : gset string;
  stdout : list line
}.

Definition print (l : line) : Py loader unit :=
  modify (λ st, {| disposable_set := disposable_set st; stdout := stdout st ++ [l] |}).

(** [disposable_set.add(x)]. *)
Definition set_add (x : string) : Py loader unit :=
  modify (λ st, {| disposable_set := {[ x ]} ∪ disposable_set st; stdout := stdout st |}).

(** [disposable_set.update(it)]: the items are added one at a time as the
    iterator yields them, so the items yielded before the iterator raises stay
    in the set. *)
Fixpoint set_update (it : list (result string)) : Py loader unit :=
  match it with
  | [] => mret tt
  | Return x :: rest => set_add x;; set_update rest
  | Raise e :: _ => raise e
  end.

(** [iter(data)] on a decoded JSON value: the elements of a list, the keys of
    a dict, the characters of a string; anything else is not iterable. *)
Definition iter (data : json_value) : result (list json_value) :=
  match data with
  | JArray items => Return items
  | JObject members => Return (map (λ m, JString (fst m)) members)
  | JString s => Return (map (λ c, JString (String c EmptyString)) (list_ascii_of_string s))
  | _ => Raise TypeError
  end.

(** [str.lower(v)]: the unbound method accepts a [str] only. *)
Definition str_lower (v : json_value) : result string :=
  match v with
  | JString s => Return (lower s)
  | _ => Raise TypeError
  end.

(** [line.strip().lower() for line in lines if line.strip()]. *)
Definition stripped_lines (lines : list string) : list string :=
  map (λ l, lower (strip l)) (filter (λ l, Is_true (truthy (strip l))) lines).

(** The body of the [try] statement for one source. *)
Definition fetch_source (get : network) (url : string) : Py loader unit :=
  response ← lift (get url);
  if (status_code response =? 200)%Z then
    (if endswith url ".json" then
       data ← lift (json response);
       items ← lift (iter data);
       set_update (map str_lower items)
     else
       set_update (map Return (stripped_lines (splitlines (text response)))));;
    print (LoaderFetched url)
  else
    print (LoaderFailed url (status_code response)).

(** [for url in urls: try: ... except Exception as e: print(...)]. *)
Fixpoint for_each_url (get : network) (urls : list string) : Py loader unit :=
  match urls with
  | [] => mret tt
  | url :: rest =>
      try_except (fetch_source get url) (λ e, print (LoaderError url e));;
      for_each_url get rest
  end.

(** [update_disposable_list], with the list of sources as a parameter; the
    source reads it from the global [DISPOSABLE_LIST_URLS]. *)
Definition update_disposable_list_from (urls : list string) (get : network)
  : Py (list line) (gset string) :=
  λ out,
    let '(r, st) := (for_each_url get urls;; gets disposable_set)
                      {| disposable_set := ∅; stdout := out |} in
    (r, stdout st).

Definition update_disposable_list : network → Py (list line) (gset string) :=
  update_disposable_list_from DISPOSABLE_LIST_URLS.

(** ** The process: globals, caches and the outside world *)

(** An MX answer: the records of the RRset, as (preference, exchange). *)
Definition answer : Type := list (Z * string).

(** [dns.resolver.resolve(domain, 'MX')]: what the [n]-th query sent by the
    process produces for [domain].  The index lets the answers change over
    time. *)
Definition resolver : Type := nat → string → result answer.

Record process := {
  disposable_domains : gset string;   (* the global set *)
  mx_cache : list (string * bool);    (* lru_cache of has_mx_record, most recently used first *)
  dns_queries : list string;          (* MX queries sent so far, newest first *)
  console : list line                 (* what has been printed *)
}.

Definition set_disposable_domains (s : gset string) (p : process) : process :=
  {| disposable_domains := s; mx_cache := mx_cache p;
     dns_queries := dns_queries p; console := console p |}.

Definition set_mx_cache (c : list (string * bool)) (p : process) : process :=
  {| disposable_domains := disposable_domains p; mx_cache := c;
     dns_queries := dns_queries p; console := console p |}.

Definition set_dns_queries (q : list string) (p : process) : process :=
  {| disposable_domains := disposable_domains p; mx_cache := mx_cache p;
     dns_queries := q; console := console p |}.

Definition set_console (out : list line) (p : process) : process :=
  {| disposable_domains := disposable_domains p; mx_cache := mx_cache p;
     dns_queries := dns_queries p; console := out |}.

(** The process before [startup_event]. *)
Definition boot : process :=
  {| disposable_domains := ∅; mx_cache := []; dns_queries := []; console := [] |}.

(** A call of [update_disposable_list] made by the process. *)
Definition call_update (get : network) : Py process (gset string) :=
  λ p, let '(r, out) := update_disposable_list get (console p) in (r, set_console out p).

(** [load_disposable_domains]. *)
Definition load_disposable_domains (get : network) : Py process unit :=
  fetched ← call_update get;
  modify (set_disposable_domains fetched).

(** Python truth value of a set: [len(s) != 0]. *)
Definition set_truthy (s : gset string) : bool := negb (size s =? 0)%nat.

(** One turn of the [while True] of [refresh_disposable_list_loop]; the turn
    ends with [await asyncio.sleep(UPDATE_INTERVAL_SECONDS)]. *)
Definition refresh_iteration (get : network) : Py process unit :=
  modify (λ p, set_console (console p ++ [SchedulerUpdating]) p);;
  updated_set ← call_update get;
  if set_truthy updated_set then modify (set_disposable_domains updated_set)
  else mret tt.

(** The first [ticks] turns of [refresh_disposable_list_loop], the loop itself
    never returning; [nets t] is the network as the [t]-th fetch of the process
    finds it. *)
Fixpoint refresh_disposable_list_loop (ticks : nat) (nets : nat → network) (t : nat)
  : Py process unit :=
  match ticks with
  | O => mret tt
  | S k => refresh_iteration (nets t);; refresh_disposable_list_loop k nets (S t)
  end.


(** ** Utility logic *)

Definition interpret_score (score : Z) : string :=
  if (score >=? 90)%Z then "High trust: valid format, likely safe"
  else if (score >=? 70)%Z then "Medium trust: may be valid but needs caution"
  else if (score >=? 40)%Z then "Low trust: suspicious or disposable"
  else "Very low trust: likely fake or invalid".

Definition is_suspicious (email : string) : bool :=
  let domain := lower (last_item (split "@" email)) in
  let tld := last_item (split "." domain) in
  bool_decide (tld ∈ suspicious_tlds).

(** [is_disposable]; the global it reads is the first argument. *)
Definition is_disposable (disposable_domains : gset string) (email : string) : bool :=
  let domain := lower (last_item (split "@" email)) in
  bool_decide (domain ∈ disposable_domains) || is_suspicious email.

(** ** [functools.lru_cache] *)

Fixpoint cache_get (key : string) (cache : list (string * bool)) : option bool :=
  match cache with
  | [] => None
  | (k, v) :: rest => if String.eqb k key then Some v else cache_get key rest
  end.

Fixpoint cache_del (key : string) (cache : list (string * bool)) : list (string * bool) :=
  match cache with
  | [] => []
  | (k, v) :: rest => if String.eqb k key then rest else (k, v) :: cache_del key rest
  end.

(** The first critical section of the wrapper: on a hit the entry becomes the
    most recently used one. *)
Definition lru_lookup (key : string) : Py process (option bool) :=
  cache ← gets mx_cache;
  match cache_get key cache with
  | Some v => modify (set_mx_cache ((key, v) :: cache_del key cache));; mret (Some v)
  | None => mret None
  end.

(** The second critical section, entered after the wrapped function has
    returned: nothing is done if the key got stored meanwhile; a full cache
    gives up its least recently used entry. *)
Definition lru_store (maxsize : nat) (key : string) (v : bool) : Py process unit :=
  cache ← gets mx_cache;
  match cache_get key cache with
  | Some _ => mret tt
  | None =>
      if (maxsize <=? length cache)%nat
      then modify (set_mx_cache ((key, v) :: removelast cache))
      else modify (set_mx_cache ((key, v) :: cache))
  end.

(** [lru_cache(maxsize)(user_function)] for a positive [maxsize].  A call that
    raises stores nothing. *)
Definition lru_cache (maxsize : nat) (user_function : string → Py process bool)
  (key : string) : Py process bool :=
  hit ← lru_lookup key;
  match hit with
  | Some v => mret v
  | None => v ← user_function key; lru_store maxsize key v;; mret v
  end.

(** ** MX lookup *)

Definition resolve (dns : resolver) (domain : string) : Py process answer :=
  λ p, (dns (length (dns_queries p)) domain,
        set_dns_queries (domain :: dns_queries p) p).

(** The function under the decorator. *)
Definition has_mx_record__wrapped (dns : resolver) (domain : string) : Py process bool :=
  try_except
    (answers ← resolve dns domain; mret (0 <? length answers)%nat)
    (λ _, mret false).

Definition has_mx_record (dns : resolver) : string → Py process bool :=
  lru_cache 1000 (has_mx_record__wrapped dns).

(** ** Validation *)

Record validation := {
  email : string;
  valid_format : bool;
  disposable : bool;
  mx_found : bool;
  score : string
}.

(** The local [score] of [validate_email] after its two [if] statements. *)
Definition penalised_score (disposable mx_found : bool) : Z :=
  let score := 100%Z in
  let score := if disposable then (score - 50)%Z else score in
  let score := if negb mx_found then (score - 30)%Z else score in
  score.

(** [f"{max(score, 0)} ({interpret_score(score)})"]. *)
Definition score_text (score : Z) : string :=
  str_of_int (Z.max score 0) +:+ " (" +:+ interpret_score score +:+ ")".

(** The dict returned by [validate_email]. *)
Definition verdict (email : string) (disposable mx_found : bool) : validation :=
  {| email := email; valid_format := true; disposable := disposable;
     mx_found := mx_found; score := score_text (penalised_score disposable mx_found) |}.

Definition validate_email (dns : resolver) (email : string) : Py process validation :=
  let domain := lower (last_item (split "@" email)) in
  published ← gets disposable_domains;
  let disposable := is_disposable published email in
  mx_found ← has_mx_record dns domain;
  mret (verdict email disposable mx_found).

(** [POST /validate]. *)
Definition validate_single_email (dns : resolver) (payload : string) : Py process validation :=
  validate_email dns payload.

(** ** Bulk validation: executor threads and [asyncio.gather] *)

(** A call of [validate_email] running in an executor thread.  The shared
    state is touched in the two critical sections of the cache, with the DNS
    query between them; other threads may run between the two. *)
Inductive thread :=
  | Queued (email : string)
  | Resolving (email : string) (disposable : bool) (domain : string)
  | Finished (r : validation).

(** The next atomic piece of a thread. *)
Definition thread_step (dns : resolver) (t : thread) : Py process thread :=
  match t with
  | Queued email =>
      let domain := lower (last_item (split "@" email)) in
      published ← gets disposable_domains;
      let disposable := is_disposable published email in
      hit ← lru_lookup domain;
      match hit with
      | Some mx_found => mret (Finished (verdict email disposable mx_found))
      | None => mret (Resolving email disposable domain)
      end
  | Resolving email disposable domain =>
      mx_found ← has_mx_record__wrapped dns domain;
      lru_store 1000 domain mx_found;;
      mret (Finished (verdict email disposable mx_found))
  | Finished r => mret (Finished r)
  end.

(** The threads advance in the order the scheduler picks: [schedule] lists the
    index of the thread that runs next. *)
Fixpoint run_threads (dns : resolver) (schedule : list nat) (threads : list thread)
  : Py process (list thread) :=
  match schedule with
  | [] => mret threads
  | i :: rest =>
      match threads !! i with
      | Some t => t' ← thread_step dns t; run_threads dns rest (<[i:=t']> threads)
      | None => run_threads dns rest threads
      end
  end.

Definition thread_result (t : thread) : option validation :=
  match t with Finished r => Some r | _ => None end.

(** [await asyncio.gather] of the futures: the results in the order of the
    futures, once every one of them is done; [None] while one is not. *)
Definition gather (threads : list thread) : option (list validation) :=
  mapM thread_result threads.

(** The body of the response of [POST /bulk-validate]. *)
Record bulk_response := { results : list validation }.

Definition validate_bulk_emails (dns : resolver) (schedule : list nat) (emails : list string)
  : Py process (option bulk_response) :=
  threads ← run_threads dns schedule (map Queued emails);
  mret (Build_bulk_response <$> gather threads).

(** [GET /health]. *)
Definition health_check : string := "ok".

(** ** Vocabulary of the properties *)

(** The value a computation returns, or [d] if it raises. *)
Definition returned {S A} (d : A) (run : result A * S) : A :=
  match fst run with Return a => a | Raise _ => d end.

(** [c] occurs in [s]. *)
Definition occurs (c : ascii) (s : string) : Prop := In c (list_ascii_of_string s).

(** [t] is what follows the last [sep] of [s]; it is [s] itself when [sep]
    does not occur in [s]. *)
Definition after_last (sep : ascii) (s t : string) : Prop :=
  (∃ pre, s = pre +:+ String sep t ∧ ¬ occurs sep t) ∨ (¬ occurs sep s ∧ t = s).


(** What one source adds to an empty set, whether its [try] body ends
    normally or raises half-way. *)
Definition contribution (get : network) (url : string) : gset string :=
  disposable_set (snd (fetch_source get url {| disposable_set := ∅; stdout := [] |})).

(** The loader counts a source as fetched when the [try] body runs to its
    last [print]. *)
Definition source_succeeded (get : network) (url : string) : Prop :=
  ∃ st, fetch_source get url {| disposable_set := ∅; stdout := [] |} = (Return tt, st)
        ∧ stdout st = [LoaderFetched url].

(** A source failed: the transport or the decoding raised, or the status is
    not 200. *)
Definition source_failed (get : network) (url : string) : Prop :=
  (∃ e st, fetch_source get url {| disposable_set := ∅; stdout := [] |} = (Raise e, st))
  ∨ (∃ r, get url = Return r ∧ status_code r ≠ 200%Z).

(** The items an iterator hands over before it stops or raises, and how it
    ends. *)
Fixpoint yielded (it : list (result string)) : gset string :=
  match it with
  | Return x :: rest => {[ x ]} ∪ yielded rest
  | _ => ∅
  end.

Fixpoint exhausted (it : list (result string)) : result unit :=
  match it with
  | [] => Return tt
  | Return _ :: rest => exhausted rest
  | Raise e :: _ => Raise e
  end.

(** The set a call of [update_disposable_list] hands to its caller. *)
Definition fetched (get : network) : gset string :=
  returned ∅ (update_disposable_list get []).

(** The boolean [has_mx_record__wrapped] makes of an outcome of the resolver. *)
Definition mx_of (o : result answer) : bool :=
  match o with
  | Return answers => (0 <? length answers)%nat
  | Raise _ => false
  end.

(** The resolver gives the same verdict for a domain whenever it is asked. *)
Definition steady (dns : resolver) : Prop :=
  ∀ n m domain, mx_of (dns n domain) = mx_of (dns m domain).

(** Every cached entry satisfies [Q]. *)
Definition cache_all (Q : string → bool → Prop) (p : process) : Prop :=
  ∀ domain v, (domain, v) ∈ mx_cache p → Q domain v.

(** [v] is what the resolver says of [domain]. *)
Definition agrees (dns : resolver) (domain : string) (v : bool) : Prop :=
  v = mx_of (dns O domain).

(** Every cached entry is what the resolver says. *)
Definition cache_sound (dns : resolver) (p : process) : Prop :=
  cache_all (agrees dns) p.


(** The domain [validate_email] looks up. *)
Definition domain_of (email : string) : string := lower (last_item (split "@" email)).





(** Shape of the cache: distinct keys, at most [maxsize] entries. *)
Definition lru_wf (maxsize : nat) (p : process) : Prop :=
  NoDup (map fst (mx_cache p)) ∧ (length (mx_cache p) ≤ maxsize)%nat.

(** [domain] is cached with the value [b], and the entries used more recently
    than it belong to domains of [seen]. *)
Definition cached_behind (seen : list string) (domain : string) (b : bool)
  (p : process) : Prop :=
  ∃ front back,
    mx_cache p = front ++ (domain, b) :: back
    ∧ ∀ k, k ∈ map fst front → k ∈ seen.

(** Calls of [has_mx_record] made one after the other. *)
Fixpoint lookups (dns : resolver) (domains : list string) : Py process (list bool) :=
  match domains with
  | [] => mret []
  | d :: rest => b ← has_mx_record dns d; bs ← lookups dns rest; mret (b :: bs)
  end.

(** The line feed. *)
Definition LF : ascii := "010"%char.

(** No character of [s] ends a line. *)
Definition no_linebreak (s : string) : Prop := ∀ c, occurs c s → is_linebreak c = false.

(** The line the loader prints for a source, as its outcome decides it. *)
Definition reports (get : network) (url : string) (l : line) : Prop :=
  (source_succeeded get url ∧ l = LoaderFetched url)
  ∨ (∃ r, get url = Return r ∧ status_code r ≠ 200%Z ∧ l = LoaderFailed url (status_code r))
  ∨ (∃ e st, fetch_source get url {| disposable_set := ∅; stdout := [] |} = (Raise e, st)
             ∧ l = LoaderError url e).

(** The domain a thread looks up or will look up is one of [domains]. *)
Definition thread_within (domains : list string) (t : thread) : Prop :=
  match t with
  | Queued email => domain_of email ∈ domains
  | Resolving _ _ domain => domain ∈ domains
  | Finished _ => True
  end.

(** ** Inputs used in the examples *)

(** Every source answers 200 with a document that holds no domain. *)
Definition blank_network : network :=
  λ _, Return {| status_code := 200; text := ""; json := Return (JArray []) |}.


(** The JSON source lists a name, a number and another name; the text
    sources answer 404. *)
Definition mixed_network : network :=
  λ url, if endswith url ".json"
         then Return {| status_code := 200; text := "";
                        json := Return (JArray [JString "Mailinator.com"; JNumber 5;
                                                JString "yopmail.com"]) |}
         else Return {| status_code := 404; text := "Not Found"; json := Raise JSONDecodeError |}.

(** Every source is unreachable. *)
Definition dead_network : network := λ _, Raise ConnectionError.

(** A name server that answers the first query and times out afterwards. *)
Definition flaky_dns : resolver :=
  λ n _, match n with O => Return [(10%Z, "mx.example.com")] | S _ => Raise Timeout end.

(** [gmail.com] has an MX record, no other name exists. *)
Definition gmail_dns : resolver :=
  λ _ domain, if String.eqb domain "gmail.com"
              then Return [(5%Z, "gmail-smtp-in.l.google.com")] else Raise NXDOMAIN.

(** The domains [d0.test], [d1.test], ... *)
Definition numbered (n : nat) : string := "d" +:+ str_of_int (Z.of_nat n) +:+ ".test".

(** A lookup of [example.com], a thousand other domains, [example.com] again. *)
Definition crowded_trace : list string :=
  "example.com" :: map numbered (seq 0 1000) ++ ["example.com"].

(** * Properties *)

(** Unfolds the monadic plumbing of a goal. *)
Ltac run_py :=
  unfold mbind, Py_bind, mret, Py_ret, gets, modify, lift, raise, try_except; simpl.

(** ** The MX lookup *)

Lemma has_mx_record__wrapped_run dns domain p :
  has_mx_record__wrapped dns domain p
  = (Return (mx_of (dns (length (dns_queries p)) domain)),
     set_dns_queries (domain :: dns_queries p) p).
Proof.
  unfold has_mx_record__wrapped, resolve. run_py.
  destruct (dns (length (dns_queries p)) domain); reflexivity.
Qed.

Lemma lru_cache_hit maxsize user_function key p v :
  cache_get key (mx_cache p) = Some v →
  lru_cache maxsize user_function key p
  = (Return v, set_mx_cache ((key, v) :: cache_del key (mx_cache p)) p).
Proof.
  intros Hhit. unfold lru_cache, lru_lookup. run_py.
  rewrite Hhit. reflexivity.
Qed.

Lemma lru_cache_miss maxsize user_function key p v p' :
  cache_get key (mx_cache p) = None →
  user_function key p = (Return v, p') →
  mx_cache p' = mx_cache p →
  lru_cache maxsize user_function key p
  = (Return v,
     set_mx_cache
       ((key, v) :: (if (maxsize <=? length (mx_cache p))%nat
                     then removelast (mx_cache p) else mx_cache p)) p').
Proof.
  intros Hmiss Hrun Hsame. unfold lru_cache, lru_lookup. run_py.
  rewrite Hmiss, Hrun. unfold lru_store. run_py.
  rewrite Hsame, Hmiss.
  destruct (maxsize <=? length (mx_cache p))%nat; reflexivity.
Qed.

Lemma has_mx_record_hit dns domain p v :
  cache_get domain (mx_cache p) = Some v →
  has_mx_record dns domain p
  = (Return v, set_mx_cache ((domain, v) :: cache_del domain (mx_cache p)) p).
Proof. apply lru_cache_hit. Qed.

Lemma has_mx_record_miss dns domain p :
  cache_get domain (mx_cache p) = None →
  has_mx_record dns domain p
  = (Return (mx_of (dns (length (dns_queries p)) domain)),
     set_mx_cache
       ((domain, mx_of (dns (length (dns_queries p)) domain))
          :: (if (1000 <=? length (mx_cache p))%nat
              then removelast (mx_cache p) else mx_cache p))
       (set_dns_queries (domain :: dns_queries p) p)).
Proof.
  intros Hmiss. unfold has_mx_record.
  apply lru_cache_miss; [exact Hmiss | apply has_mx_record__wrapped_run | reflexivity].
Qed.

Lemma has_mx_record_returns dns domain p :
  ∃ b p', has_mx_record dns domain p = (Return b, p')
          ∧ disposable_domains p' = disposable_domains p
          ∧ console p' = console p.
Proof.
  destruct (cache_get domain (mx_cache p)) as [v|] eqn:Hc.
  - eexists _, _. split; [apply (has_mx_record_hit _ _ _ _ Hc) | split; reflexivity].
  - eexists _, _. split; [apply (has_mx_record_miss _ _ _ Hc) | split; reflexivity].
Qed.

Lemma validate_email_returns dns email p :
  ∃ mx p', validate_email dns email p
           = (Return (verdict email (is_disposable (disposable_domains p) email) mx), p').
Proof.
  destruct (has_mx_record_returns dns (lower (last_item (split "@" email))) p)
    as (b & p' & Hrun & _).
  exists b, p'. unfold validate_email. run_py. rewrite Hrun. reflexivity.
Qed.

(** C5: [has_mx_record] always returns a boolean, whatever the resolver does;
    when the resolution raises, whatever the exception, the function under the
    decorator returns [False], and so does the decorated function on a domain
    it has to resolve. *)
Theorem C5_mx_lookup_never_raises (dns : resolver) (domain : string) (p : process) :
  (∃ b p', has_mx_record dns domain p = (Return b, p'))
  ∧ (∃ b p', has_mx_record__wrapped dns domain p = (Return b, p'))
  ∧ (∀ e, dns (length (dns_queries p)) domain = Raise e →
          fst (has_mx_record__wrapped dns domain p) = Return false
          ∧ (cache_get domain (mx_cache p) = None →
             fst (has_mx_record dns domain p) = Return false)).
Proof.
  split; [|split].
  - destruct (has_mx_record_returns dns domain p) as (b & p' & H & _). eauto.
  - rewrite has_mx_record__wrapped_run. eauto.
  - intros e He. split.
    + rewrite has_mx_record__wrapped_run, He. reflexivity.
    + intros Hmiss. rewrite (has_mx_record_miss _ _ _ Hmiss), He. reflexivity.
Qed.

(** ** Scores *)

(** Replaces the score of a concrete pair of flags by its value. *)
Ltac eval_score :=
  repeat match goal with
  | |- context [penalised_score ?d ?m] =>
      let v := eval vm_compute in (penalised_score d m) in
      change (penalised_score d m) with v
  end.

(** C3: the score is 100, less 50 for a disposable address, less 30 for a
    missing MX record, and not below 0: 50, 70, 20 and 100 for the four pairs
    of flags; the tier text follows the thresholds 90, 70 and 40. *)
Theorem C3_score_and_tier (disposable mx_found : bool) (s : Z) :
  Z.max (penalised_score disposable mx_found) 0
  = Z.max (100 - (if disposable then 50 else 0) - (if mx_found then 0 else 30)) 0
  ∧ Z.max (penalised_score true true) 0 = 50%Z
  ∧ Z.max (penalised_score false false) 0 = 70%Z
  ∧ Z.max (penalised_score true false) 0 = 20%Z
  ∧ Z.max (penalised_score false true) 0 = 100%Z
  ∧ ((90 ≤ s)%Z → interpret_score s = "High trust: valid format, likely safe")
  ∧ ((70 ≤ s < 90)%Z → interpret_score s = "Medium trust: may be valid but needs caution")
  ∧ ((40 ≤ s < 70)%Z → interpret_score s = "Low trust: suspicious or disposable")
  ∧ ((s < 40)%Z → interpret_score s = "Very low trust: likely fake or invalid").
Proof.
  split; [destruct disposable, mx_found; reflexivity|].
  do 4 (split; [reflexivity|]).
  unfold interpret_score.
  repeat split; intros Hs;
    repeat match goal with
    | |- context [(?a >=? ?b)%Z] =>
        let E := fresh in destruct (Z.geb_spec a b) as [E|E]; try lia
    end; reflexivity.
Qed.

(** C10: the score before the clamp is 20, 50, 70 or 100, the clamp leaves it
    as it is, and the tier of the response, read off the unclamped score, is
    the tier of the number displayed. *)
Theorem C10_clamp_is_identity (dns : resolver) (email : string) (p : process) :
  ∃ r p' raw,
    validate_email dns email p = (Return r, p')
    ∧ raw = penalised_score (disposable r) (mx_found r)
    ∧ (raw = 20 ∨ raw = 50 ∨ raw = 70 ∨ raw = 100)%Z
    ∧ Z.max raw 0 = raw
    ∧ score r = str_of_int (Z.max raw 0) +:+ " (" +:+ interpret_score raw +:+ ")"
    ∧ interpret_score raw = interpret_score (Z.max raw 0).
Proof.
  destruct (validate_email_returns dns email p) as (mx & p' & Hrun).
  eexists _, p', _. split; [exact Hrun|]. split; [reflexivity|]. simpl.
  destruct (is_disposable (disposable_domains p) email), mx; eval_score;
    (split; [lia|]); repeat split; reflexivity.
Qed.

(** C9: the score of a validation result is an integer between 0 and 100,
    rendered as the number, a space, and one of the four tier texts in
    parentheses. *)
Theorem C9_score_rendering (dns : resolver) (email : string) (p : process) :
  ∃ r p' n tier,
    validate_email dns email p = (Return r, p')
    ∧ (0 ≤ n ≤ 100)%Z
    ∧ (tier = "High trust: valid format, likely safe"
       ∨ tier = "Medium trust: may be valid but needs caution"
       ∨ tier = "Low trust: suspicious or disposable"
       ∨ tier = "Very low trust: likely fake or invalid")
    ∧ score r = str_of_int n +:+ " (" +:+ tier +:+ ")".
Proof.
  destruct (validate_email_returns dns email p) as (mx & p' & Hrun).
  eexists _, p', _, _. split; [exact Hrun|]. simpl.
  instantiate (2 := Z.max (penalised_score (is_disposable (disposable_domains p) email) mx) 0).
  instantiate (1 := interpret_score (penalised_score (is_disposable (disposable_domains p) email) mx)).
  destruct (is_disposable (disposable_domains p) email), mx; eval_score.
  - split; [lia|]. split; [|reflexivity]. right. right. left. reflexivity.
  - split; [lia|]. split; [|reflexivity]. right. right. right. reflexivity.
  - split; [lia|]. split; [|reflexivity]. left. reflexivity.
  - split; [lia|]. split; [|reflexivity]. right. left. reflexivity.
Qed.

(** ** The loader *)

Lemma set_update_run it st :
  set_update it st
  = (exhausted it,
     {| disposable_set := yielded it ∪ disposable_set st; stdout := stdout st |}).
Proof.
  revert st. induction it as [|[x|e] rest IH]; intros st; simpl.
  - run_py. destruct st as [set out]. simpl. f_equal. f_equal. set_solver.
  - unfold set_add. run_py. rewrite IH. simpl. f_equal. f_equal. set_solver.
  - run_py. destruct st as [set out]. simpl. f_equal. f_equal. set_solver.
Qed.

(** A source adds its contribution to the set and its lines to the output,
    whatever the frame it starts from. *)
Lemma fetch_source_frame get url st :
  let st0 := {| disposable_set := ∅; stdout := [] |} in
  fetch_source get url st
  = (fst (fetch_source get url st0),
     {| disposable_set := contribution get url ∪ disposable_set st;
        stdout := stdout st ++ stdout (snd (fetch_source get url st0)) |}).
Proof.
  simpl. unfold contribution, fetch_source, print. run_py.
  destruct st as [set out]. simpl.
  assert (Hl : ∀ X : gset string, X = ∅ ∪ X) by (intros; set_solver).
  assert (Hr : ∀ X : gset string, X ∪ ∅ = X) by (intros; set_solver).
  destruct (get url) as [r|e]; simpl;
    [|rewrite app_nil_r, <- Hl; reflexivity].
  destruct (status_code r =? 200)%Z; simpl;
    [|rewrite <- Hl; reflexivity].
  destruct (endswith url ".json"); simpl.
  - destruct (json r) as [data|e]; simpl;
      [|rewrite app_nil_r, <- Hl; reflexivity].
    destruct (iter data) as [items|e]; simpl;
      [|rewrite app_nil_r, <- Hl; reflexivity].
    rewrite !set_update_run. simpl.
    destruct (exhausted (map str_lower items)); simpl;
      rewrite ?app_nil_r, Hr; reflexivity.
  - rewrite !set_update_run. simpl.
    destruct (exhausted _); simpl; rewrite ?app_nil_r, Hr; reflexivity.
Qed.

(** The loop over the sources ends normally with the union of the
    contributions. *)
Lemma for_each_url_run get urls st :
  ∃ log, for_each_url get urls st
         = (Return tt,
            {| disposable_set := ⋃ (contribution get <$> urls) ∪ disposable_set st;
               stdout := stdout st ++ log |}).
Proof.
  revert st. induction urls as [|url rest IH]; intros st.
  - exists []. simpl. run_py. destruct st as [set out]. simpl.
    rewrite app_nil_r. f_equal. f_equal. set_solver.
  - simpl. run_py. rewrite fetch_source_frame. simpl.
    destruct (fst (fetch_source get url _)) as [[]|e]; simpl.
    + destruct (IH {| disposable_set := contribution get url ∪ disposable_set st;
                      stdout := stdout st
                                  ++ stdout (snd (fetch_source get url
                                       {| disposable_set := ∅; stdout := [] |})) |})
        as [log Hlog].
      rewrite Hlog. simpl. eexists. rewrite <- app_assoc. f_equal. f_equal. set_solver.
    + unfold print. run_py.
      destruct (IH {| disposable_set := contribution get url ∪ disposable_set st;
                      stdout := (stdout st
                                  ++ stdout (snd (fetch_source get url
                                       {| disposable_set := ∅; stdout := [] |})))
                                 ++ [LoaderError url e] |})
        as [log Hlog].
      rewrite Hlog. simpl. eexists. rewrite <- !app_assoc. f_equal. f_equal. set_solver.
Qed.

Lemma update_disposable_list_from_run urls get out :
  ∃ log, update_disposable_list_from urls get out
         = (Return (⋃ (contribution get <$> urls)), (out ++ log)%list).
Proof.
  unfold update_disposable_list_from. run_py.
  destruct (for_each_url_run get urls {| disposable_set := ∅; stdout := out |})
    as [log Hlog].
  rewrite Hlog. simpl. exists log. f_equal. f_equal. set_solver.
Qed.

Lemma fetched_eq get : fetched get = ⋃ (contribution get <$> DISPOSABLE_LIST_URLS).
Proof.
  unfold fetched, returned, update_disposable_list.
  destruct (update_disposable_list_from_run DISPOSABLE_LIST_URLS get []) as [log Hlog].
  rewrite Hlog. reflexivity.
Qed.

Lemma call_update_run get p :
  ∃ log, call_update get p = (Return (fetched get), set_console (console p ++ log) p).
Proof.
  unfold call_update, update_disposable_list. rewrite fetched_eq.
  destruct (update_disposable_list_from_run DISPOSABLE_LIST_URLS get (console p))
    as [log Hlog].
  rewrite Hlog. exists log. reflexivity.
Qed.

Lemma set_truthy_false (s : gset string) : set_truthy s = false ↔ s = ∅.
Proof.
  unfold set_truthy. rewrite negb_false_iff, Nat.eqb_eq.
  rewrite size_empty_iff. apply leibniz_equiv_iff.
Qed.

(** ** The refresh loop *)

Lemma refresh_iteration_run get p :
  ∃ out, refresh_iteration get p
         = (Return tt,
            set_console out
              (if set_truthy (fetched get)
               then set_disposable_domains (fetched get) p else p)).
Proof.
  unfold refresh_iteration. run_py.
  destruct (call_update_run get (set_console (console p ++ [SchedulerUpdating]) p))
    as [log Hlog].
  rewrite Hlog. simpl.
  destruct (set_truthy (fetched get)); eexists; reflexivity.
Qed.

(** The first [S k] turns are the first [k] turns and one more. *)
Lemma refresh_loop_snoc nets k : ∀ t p,
  ∃ q, refresh_disposable_list_loop k nets t p = (Return tt, q)
       ∧ refresh_disposable_list_loop (S k) nets t p = refresh_iteration (nets (t + k)) q.
Proof.
  induction k as [|k IH]; intros t p.
  - exists p. split; [reflexivity|]. simpl. run_py. rewrite Nat.add_0_r.
    destruct (refresh_iteration_run (nets t) p) as [out ->]. reflexivity.
  - destruct (IH (S t) (snd (refresh_iteration (nets t) p))) as (q & Hk & HSk).
    destruct (refresh_iteration_run (nets t) p) as [out Hout].
    exists q. rewrite Hout in Hk, HSk. simpl in Hk, HSk. split.
    + change (refresh_disposable_list_loop (S k) nets t p)
        with ((refresh_iteration (nets t);; refresh_disposable_list_loop k nets (S t)) p).
      run_py. rewrite Hout. exact Hk.
    + change (refresh_disposable_list_loop (S (S k)) nets t p)
        with ((refresh_iteration (nets t);;
               refresh_disposable_list_loop (S k) nets (S t)) p).
      run_py. rewrite Hout. rewrite HSk. f_equal. f_equal. lia.
Qed.

(** C1: in every turn of the refresh loop, a fetch that yields the empty set
    leaves the published set as it was before the turn, and a fetch that
    yields a non-empty set replaces the published set by it. *)
Theorem C1_refresh_keeps_or_replaces (nets : nat → network) (t k : nat) (p : process) :
  let before := snd (refresh_disposable_list_loop k nets t p) in
  let after := snd (refresh_disposable_list_loop (S k) nets t p) in
  let updated_set := fetched (nets (t + k)) in
  fst (refresh_disposable_list_loop (S k) nets t p) = Return tt
  ∧ (updated_set = ∅ → disposable_domains after = disposable_domains before)
  ∧ (updated_set ≠ ∅ → disposable_domains after = updated_set).
Proof.
  destruct (refresh_loop_snoc nets k t p) as (q & Hk & HSk).
  destruct (refresh_iteration_run (nets (t + k)) q) as [out Hout].
  cbv zeta. rewrite HSk, Hk, Hout. cbn [fst snd].
  split; [reflexivity|]. split.
  - intros Hempty. apply set_truthy_false in Hempty. rewrite Hempty. reflexivity.
  - intros Hfull.
    destruct (set_truthy (fetched (nets (t + k)))) eqn:E; [reflexivity|].
    apply set_truthy_false in E. contradiction.
Qed.

(** ** Failed and empty sources *)

(** A source is either counted as fetched or it failed. *)
Lemma source_failed_or_succeeded get url :
  source_failed get url ∨ source_succeeded get url.
Proof.
  unfold source_failed, source_succeeded, fetch_source, print. run_py.
  destruct (get url) as [r|e] eqn:Hget; simpl; [|left; left; eauto].
  destruct (Z.eqb_spec (status_code r) 200) as [Hok|Hbad]; [|left; right; eauto].
  destruct (endswith url ".json"); simpl.
  - destruct (json r) as [data|e]; simpl; [|left; left; eauto].
    destruct (iter data) as [items|e]; simpl; [|left; left; eauto].
    rewrite set_update_run.
    destruct (exhausted (map str_lower items)) as [[]|e]; [right|left; left]; eauto.
  - rewrite set_update_run.
    destruct (exhausted _) as [[]|e]; [right|left; left]; eauto.
Qed.

Lemma union_list_empty_inv (Xs : list (gset string)) :
  ⋃ Xs = ∅ → ∀ X, X ∈ Xs → X = ∅.
Proof.
  induction Xs as [|Y Ys IH]; intros Hempty X HX.
  - inversion HX.
  - simpl in Hempty. apply empty_union_L in Hempty as [HY HYs].
    apply elem_of_cons in HX as [->|HX]; [exact HY | exact (IH HYs X HX)].
Qed.

(** C2 fails as stated: three sources that answer 200 with an empty document
    are all counted as fetched, none of them failed, and the set is empty. *)
Lemma C2_counterexample :
  fst (update_disposable_list_from DISPOSABLE_LIST_URLS blank_network []) = Return ∅
  ∧ ¬ (∀ url, url ∈ DISPOSABLE_LIST_URLS → source_failed blank_network url).
Proof.
  split; [vm_compute; reflexivity|].
  intros Hall.
  destruct (Hall (hd "" DISPOSABLE_LIST_URLS)) as [(e & st & Hraise)|(r & Hget & Hbad)].
  - simpl. left.
  - vm_compute in Hraise. discriminate Hraise.
  - unfold blank_network in Hget. injection Hget as <-. apply Hbad. reflexivity.
Qed.

(** C2, amended: the fetch ends normally for every list of sources, and its
    set is empty only if no source added a domain, each source having failed
    or having been fetched with a document that holds no domain. *)
Theorem C2_fetch_never_raises (urls : list string) (get : network) (out : list line) :
  ∃ s out',
    update_disposable_list_from urls get out = (Return s, out')
    ∧ (s = ∅ → ∀ url, url ∈ urls →
         contribution get url = ∅
         ∧ (source_failed get url ∨ source_succeeded get url)).
Proof.
  destruct (update_disposable_list_from_run urls get out) as [log Hlog].
  eexists _, _. split; [exact Hlog|].
  intros Hempty url Hurl. split; [|apply source_failed_or_succeeded].
  apply (union_list_empty_inv _ Hempty).
  apply list_elem_of_fmap. exists url. split; [reflexivity | exact Hurl].
Qed.

(** ** Case and whitespace *)












(** ** What the two parsing modes put in the set *)


Lemma yielded_returns (l : list string) : yielded (map Return l) = list_to_set l.
Proof. induction l as [|x l IH]; simpl; [reflexivity | rewrite IH; reflexivity]. Qed.

Lemma stripped_lines_spec lines d :
  d ∈ stripped_lines lines ↔ ∃ l, l ∈ lines ∧ strip l ≠ "" ∧ d = lower (strip l).
Proof.
  unfold stripped_lines. rewrite list_elem_of_fmap. split.
  - intros (l & -> & [Hl Ht]%list_elem_of_filter). exists l. split; [exact Ht|].
    split; [|reflexivity]. intros E. rewrite E in Hl. exact Hl.
  - intros (l & Hl & Hne & ->). exists l. split; [reflexivity|].
    apply list_elem_of_filter. split; [|exact Hl].
    destruct (strip l); [contradiction | exact I].
Qed.

(** The contribution of a source read in line mode. *)
Lemma contribution_line_mode get url r :
  endswith url ".json" = false → get url = Return r → status_code r = 200%Z →
  contribution get url = list_to_set (stripped_lines (splitlines (text r))).
Proof.
  intros Hmode Hget Hok. unfold contribution, fetch_source, print. run_py.
  rewrite Hget, Hok, Hmode. simpl. rewrite set_update_run, yielded_returns.
  destruct (exhausted _); simpl; set_solver.
Qed.




(** ** Splitting at a separator *)

Lemma append_cons c a b : String c a +:+ b = String c (a +:+ b).
Proof. reflexivity. Qed.

Lemma append_nil_r a : a +:+ "" = a.
Proof. induction a as [|c a IH]; [reflexivity|]. rewrite append_cons, IH. reflexivity. Qed.

Lemma append_assoc a b c : (a +:+ b) +:+ c = a +:+ (b +:+ c).
Proof.
  induction a as [|x a IH]; [reflexivity|]. rewrite !append_cons, IH. reflexivity.
Qed.

Lemma occurs_cons c x s : occurs c (String x s) ↔ x = c ∨ occurs c s.
Proof. reflexivity. Qed.

Lemma occurs_append c a b : occurs c (a +:+ b) ↔ occurs c a ∨ occurs c b.
Proof.
  induction a as [|x a IH].
  - change ("" +:+ b) with b. unfold occurs at 2. simpl. tauto.
  - rewrite append_cons, !occurs_cons, IH. tauto.
Qed.

Lemma split_from_not_nil sep cur s : split_from sep cur s ≠ [].
Proof.
  revert cur. induction s as [|c s IH]; intros cur; simpl; [discriminate|].
  destruct (Ascii.eqb c sep); [discriminate | apply IH].
Qed.

Lemma last_item_cons x l : l ≠ [] → last_item (x :: l) = last_item l.
Proof. destruct l; [contradiction | reflexivity]. Qed.

(** The last field of [split] is what follows the last separator. *)
Lemma last_item_split_from sep cur s :
  let t := last_item (split_from sep cur s) in
  (∃ pre, s = pre +:+ String sep t ∧ ¬ occurs sep t)
  ∨ (¬ occurs sep s ∧ t = cur +:+ s).
Proof.
  revert cur. induction s as [|c s IH]; intros cur; simpl.
  - right. split; [intros [] | symmetry; apply append_nil_r].
  - destruct (Ascii.eqb_spec c sep) as [->|Hne].
    + rewrite last_item_cons by apply split_from_not_nil. left.
      destruct (IH "") as [(pre & Hs & Hno)|(Hno & Ht)].
      * exists (String sep pre). split; [rewrite append_cons, <- Hs; reflexivity | exact Hno].
      * exists "". change ("" +:+ s) with s in Ht. rewrite Ht.
        split; [reflexivity | exact Hno].
    + destruct (IH (cur +:+ String c "")) as [(pre & Hs & Hno)|(Hno & Ht)].
      * left. exists (String c pre).
        split; [rewrite append_cons, <- Hs; reflexivity | exact Hno].
      * right. split.
        -- rewrite occurs_cons. tauto.
        -- rewrite Ht, append_assoc. reflexivity.
Qed.

Lemma after_last_split sep s : after_last sep s (last_item (split sep s)).
Proof.
  destruct (last_item_split_from sep "" s) as [H|[Hno Ht]]; [left; exact H|].
  right. split; [exact Hno | exact Ht].
Qed.

Lemma after_last_unique_pre sep t1 t2 : ∀ pre1 pre2,
  pre1 +:+ String sep t1 = pre2 +:+ String sep t2 →
  ¬ occurs sep t1 → ¬ occurs sep t2 → t1 = t2.
Proof.
  induction pre1 as [|c1 pre1 IH]; intros [|c2 pre2] Heq Hno1 Hno2.
  - injection Heq as ->. reflexivity.
  - change ("" +:+ String sep t1) with (String sep t1) in Heq.
    rewrite append_cons in Heq. injection Heq as -> ->.
    exfalso. apply Hno1, occurs_append. right. left. reflexivity.
  - change ("" +:+ String sep t2) with (String sep t2) in Heq.
    rewrite append_cons in Heq. injection Heq as -> <-.
    exfalso. apply Hno2, occurs_append. right. left. reflexivity.
  - rewrite !append_cons in Heq. injection Heq as -> Heq. exact (IH _ Heq Hno1 Hno2).
Qed.

Lemma after_last_unique sep s t1 t2 :
  after_last sep s t1 → after_last sep s t2 → t1 = t2.
Proof.
  intros [(pre1 & Hs1 & Hno1)|(Hno1 & ->)] [(pre2 & Hs2 & Hno2)|(Hno2 & ->)].
  - rewrite Hs1 in Hs2. exact (after_last_unique_pre _ _ _ _ _ Hs2 Hno1 Hno2).
  - exfalso. apply Hno2. rewrite Hs1. apply occurs_append. right. left. reflexivity.
  - exfalso. apply Hno1. rewrite Hs2. apply occurs_append. right. left. reflexivity.
  - reflexivity.
Qed.

Lemma suspicious_tlds_spec tld :
  tld ∈ suspicious_tlds
  ↔ tld = "xyz" ∨ tld = "top" ∨ tld = "tk" ∨ tld = "lol"
    ∨ tld = "click" ∨ tld = "gq" ∨ tld = "cf".
Proof. unfold suspicious_tlds. set_solver. Qed.

(** C4: the [disposable] flag of a validation is true exactly when the
    lowercased text after the last [@] is in the published set or the text
    after its last dot is one of xyz, top, tk, lol, click, gq, cf; a domain in
    [.xyz] is flagged whatever the set holds, and a domain in neither is not
    flagged. *)
Theorem C4_disposable_flag (dns : resolver) (p : process) (email d tld : string) :
  after_last "@" email d →
  after_last "." (lower d) tld →
  ∃ r p',
    validate_email dns email p = (Return r, p')
    ∧ (disposable r = true
       ↔ lower d ∈ disposable_domains p
         ∨ (tld = "xyz" ∨ tld = "top" ∨ tld = "tk" ∨ tld = "lol"
            ∨ tld = "click" ∨ tld = "gq" ∨ tld = "cf"))
    ∧ (tld = "xyz" → disposable r = true)
    ∧ (lower d ∉ disposable_domains p → tld ∉ suspicious_tlds → disposable r = false).
Proof.
  intros Hd Htld.
  destruct (validate_email_returns dns email p) as (mx & p' & Hrun).
  eexists _, p'. split; [exact Hrun|]. simpl.
  rewrite (after_last_unique _ _ _ _ Hd (after_last_split "@" email)) in Htld |- *.
  assert (Hflag : is_disposable (disposable_domains p) email = true
                  ↔ lower (last_item (split "@" email)) ∈ disposable_domains p
                    ∨ tld ∈ suspicious_tlds).
  { unfold is_disposable, is_suspicious.
    rewrite <- (after_last_unique _ _ _ _ Htld (after_last_split "." _)).
    rewrite orb_true_iff, !bool_decide_eq_true. reflexivity. }
  split; [|split].
  - rewrite Hflag, suspicious_tlds_spec. reflexivity.
  - intros ->. apply Hflag. right. apply suspicious_tlds_spec. left. reflexivity.
  - intros Hout Hnot.
    destruct (is_disposable (disposable_domains p) email); [|reflexivity].
    destruct (proj1 Hflag eq_refl); contradiction.
Qed.

Lemma C4_disposable_flag_witness :
  after_last "@" "user@promo.xyz" "promo.xyz"
  ∧ after_last "." (lower "promo.xyz") "xyz"
  ∧ ∃ r p',
      validate_email gmail_dns "user@promo.xyz" boot = (Return r, p')
      ∧ (disposable r = true
         ↔ lower "promo.xyz" ∈ disposable_domains boot
           ∨ ("xyz" = "xyz" ∨ "xyz" = "top" ∨ "xyz" = "tk" ∨ "xyz" = "lol"
              ∨ "xyz" = "click" ∨ "xyz" = "gq" ∨ "xyz" = "cf"))
      ∧ ("xyz" = "xyz" → disposable r = true)
      ∧ (lower "promo.xyz" ∉ disposable_domains boot → "xyz" ∉ suspicious_tlds
         → disposable r = false).
Proof.
  assert (H1 : after_last "@" "user@promo.xyz" "promo.xyz").
  { left. exists "user". split; [reflexivity|].
    unfold occurs. simpl. intuition discriminate. }
  assert (H2 : after_last "." (lower "promo.xyz") "xyz").
  { left. exists "promo". split; [reflexivity|].
    unfold occurs. simpl. intuition discriminate. }
  split; [exact H1|]. split; [exact H2|].
  exact (C4_disposable_flag gmail_dns boot "user@promo.xyz" "promo.xyz" "xyz" H1 H2).
Defined.

(** ** What the cache holds *)

Lemma lru_lookup_run key q :
  lru_lookup key q
  = match cache_get key (mx_cache q) with
    | Some v => (Return (Some v), set_mx_cache ((key, v) :: cache_del key (mx_cache q)) q)
    | None => (Return None, q)
    end.
Proof. unfold lru_lookup. run_py. destruct (cache_get key (mx_cache q)); reflexivity. Qed.

Lemma lru_store_run maxsize key v q :
  lru_store maxsize key v q
  = (Return tt,
     match cache_get key (mx_cache q) with
     | Some _ => q
     | None =>
         set_mx_cache
           ((key, v) :: (if (maxsize <=? length (mx_cache q))%nat
                         then removelast (mx_cache q) else mx_cache q)) q
     end).
Proof.
  unfold lru_store. run_py. destruct (cache_get key (mx_cache q)); [reflexivity|].
  destruct (maxsize <=? length (mx_cache q))%nat; reflexivity.
Qed.



Lemma removelast_subset {A} (l : list A) e : e ∈ removelast l → e ∈ l.
Proof.
  induction l as [|x l IH]; simpl; [intros H; exact H|].
  destruct l as [|y l]; [intros []%elem_of_nil|].
  intros [->|H]%elem_of_cons; [left | right; exact (IH H)].
Qed.




(** ** Executor threads *)

Lemma thread_step_queued dns email q :
  let disposable := is_disposable (disposable_domains q) email in
  thread_step dns (Queued email) q
  = match cache_get (domain_of email) (mx_cache q) with
    | Some v => (Return (Finished (verdict email disposable v)),
                 set_mx_cache ((domain_of email, v)
                                 :: cache_del (domain_of email) (mx_cache q)) q)
    | None => (Return (Resolving email disposable (domain_of email)), q)
    end.
Proof.
  unfold thread_step, domain_of. run_py. rewrite lru_lookup_run.
  destruct (cache_get _ (mx_cache q)); reflexivity.
Qed.

Lemma thread_step_resolving dns email disposable domain q :
  let v := mx_of (dns (length (dns_queries q)) domain) in
  thread_step dns (Resolving email disposable domain) q
  = (Return (Finished (verdict email disposable v)),
     snd (lru_store 1000 domain v (set_dns_queries (domain :: dns_queries q) q))).
Proof.
  unfold thread_step. run_py. rewrite has_mx_record__wrapped_run, lru_store_run.
  reflexivity.
Qed.

Lemma run_threads_pick dns i rest threads q t t' q' :
  threads !! i = Some t → thread_step dns t q = (Return t', q') →
  run_threads dns (i :: rest) threads q = run_threads dns rest (<[i:=t']> threads) q'.
Proof.
  intros Hi Hstep. cbn [run_threads]. rewrite Hi. run_py. rewrite Hstep. reflexivity.
Qed.

(** Run without interruption, a thread is a call of [validate_email]. *)
Lemma validate_email_is_a_thread dns email p :
  ∃ r q, validate_email dns email p = (Return r, q)
         ∧ run_threads dns [0; 0] [Queued email] p = (Return [Finished r], q).
Proof.
  pose proof (thread_step_queued dns email p) as Hfirst. cbv zeta in Hfirst.
  unfold domain_of in Hfirst.
  set (domain := lower (last_item (split "@" email))) in *.
  destruct (cache_get domain (mx_cache p)) as [v|] eqn:Hget.
  - eexists _, _. split.
    + unfold validate_email. run_py. fold domain.
      rewrite (has_mx_record_hit _ _ _ _ Hget). reflexivity.
    + rewrite (run_threads_pick dns 0 [0] [Queued email] p (Queued email) _ _ eq_refl Hfirst).
      reflexivity.
  - eexists _, _. split.
    + unfold validate_email. run_py. fold domain.
      rewrite (has_mx_record_miss _ _ _ Hget). reflexivity.
    + rewrite (run_threads_pick dns 0 [0] [Queued email] p (Queued email) _ _ eq_refl Hfirst).
      cbn [insert list_insert].
      rewrite (run_threads_pick dns 0 [] [Resolving email _ domain] p
                 (Resolving email _ domain) _ _ eq_refl (thread_step_resolving _ _ _ _ _)).
      rewrite lru_store_run. cbn [snd mx_cache set_dns_queries]. rewrite Hget. reflexivity.
Qed.

Section Threads.

Variables (dns : resolver) (Q : string → bool → Prop) (published : gset string).

(** Whatever the resolver answers satisfies [Q]. *)
Hypothesis answers_Q : ∀ n domain, Q domain (mx_of (dns n domain)).





End Threads.



(** ** The cache as a recency list *)

Lemma cache_get_None key cache : cache_get key cache = None ↔ key ∉ map fst cache.
Proof.
  induction cache as [|[k w] rest IH]; simpl.
  - split; [intros _ []%elem_of_nil | reflexivity].
  - rewrite not_elem_of_cons. destruct (String.eqb_spec k key) as [->|Hne].
    + split; [discriminate | intros [[] _]; reflexivity].
    + rewrite IH. split; [intros H; split; [congruence | exact H] | intros [_ H]; exact H].
Qed.

Lemma cache_del_keys key cache x :
  x ∈ map fst (cache_del key cache) → x ∈ map fst cache.
Proof.
  induction cache as [|[k w] rest IH]; simpl; [intros H; exact H|].
  destruct (String.eqb k key); simpl.
  - intros H. right. exact H.
  - intros [->|H]%elem_of_cons; [left | right; exact (IH H)].
Qed.

Lemma cache_del_NoDup key cache :
  NoDup (map fst cache) →
  NoDup (map fst (cache_del key cache)) ∧ key ∉ map fst (cache_del key cache).
Proof.
  induction cache as [|[k w] rest IH]; simpl.
  - intros _. split; [constructor | intros []%elem_of_nil].
  - intros [Hk Hrest]%NoDup_cons. destruct (String.eqb_spec k key) as [->|Hne].
    + split; [exact Hrest | exact Hk].
    + destruct (IH Hrest) as [Hnd Hnot]. simpl. split.
      * apply NoDup_cons. split; [|exact Hnd].
        intros Hin. apply Hk. exact (cache_del_keys _ _ _ Hin).
      * apply not_elem_of_cons. split; [congruence | exact Hnot].
Qed.

Lemma cache_del_length key cache v :
  cache_get key cache = Some v → S (length (cache_del key cache)) = length cache.
Proof.
  induction cache as [|[k w] rest IH]; simpl; [discriminate|].
  destruct (String.eqb k key); [reflexivity|].
  intros H. simpl. rewrite (IH H). reflexivity.
Qed.

(** Removing another key leaves the entry of [domain] in place, behind a
    front that has not grown. *)
Lemma cache_del_behind key domain b front back :
  key ≠ domain →
  ∃ front' back',
    cache_del key (front ++ (domain, b) :: back) = front' ++ (domain, b) :: back'
    ∧ ∀ x, x ∈ map fst front' → x ∈ map fst front.
Proof.
  intros Hne. induction front as [|[k w] front IH]; simpl.
  - destruct (String.eqb_spec domain key) as [->|_]; [contradiction|].
    exists [], (cache_del key back). split; [reflexivity | intros x H; exact H].
  - destruct (String.eqb k key).
    + exists front, back. split; [reflexivity | intros x H; right; exact H].
    + destruct IH as (front' & back' & Heq & Hsub).
      exists ((k, w) :: front'), back'. rewrite Heq. split; [reflexivity|].
      simpl. intros x [->|H]%elem_of_cons; [left | right; exact (Hsub x H)].
Qed.

Lemma cache_get_behind domain b front back :
  domain ∉ map fst front → cache_get domain (front ++ (domain, b) :: back) = Some b.
Proof.
  induction front as [|[k w] front IH]; simpl.
  - intros _. rewrite String.eqb_refl. reflexivity.
  - intros [Hk Hfront]%not_elem_of_cons.
    destruct (String.eqb_spec k domain) as [->|_]; [contradiction | exact (IH Hfront)].
Qed.

Lemma removelast_keys_NoDup (cache : list (string * bool)) :
  NoDup (map fst cache) → NoDup (map fst (removelast cache)).
Proof.
  rewrite removelast_firstn_len. intros Hnd.
  change (NoDup (fst <$> take (pred (length cache)) cache)).
  rewrite fmap_take. eapply sublist_NoDup; [exact Hnd | apply sublist_take].
Qed.

Lemma removelast_keys (cache : list (string * bool)) x :
  x ∈ map fst (removelast cache) → x ∈ map fst cache.
Proof.
  intros ([k w] & -> & Hin)%list_elem_of_fmap.
  apply list_elem_of_fmap. exists (k, w). split; [reflexivity|].
  exact (removelast_subset _ _ Hin).
Qed.

Lemma removelast_length {A} (l : list A) : length (removelast l) = pred (length l).
Proof.
  rewrite removelast_firstn_len, length_firstn. lia.
Qed.

Section Recency.

Variables (dns : resolver) (maxsize : nat) (seen : list string).
Variables (domain : string) (b : bool).
Hypothesis Hroom : length (remove_dups seen) < maxsize.

(** Distinct domains of [seen] are fewer than [maxsize]. *)
Lemma seen_keys_short (keys : list string) :
  NoDup keys → (∀ k, k ∈ keys → k ∈ seen) → length keys < maxsize.
Proof.
  intros Hnd Hsub. eapply Nat.le_lt_trans; [|exact Hroom].
  apply submseteq_length, NoDup_submseteq; [exact Hnd|].
  intros k Hk. apply elem_of_remove_dups, Hsub, Hk.
Qed.

(** A lookup of [domain] or of a domain of [seen] keeps the entry of
    [domain] cached, and sends no query for [domain]. *)
Lemma lru_cache_step key p :
  key ∈ seen ∨ key = domain →
  lru_wf maxsize p → cached_behind seen domain b p →
  ∃ v p',
    lru_cache maxsize (has_mx_record__wrapped dns) key p = (Return v, p')
    ∧ lru_wf maxsize p' ∧ cached_behind seen domain b p'
    ∧ count_occ string_dec (dns_queries p') domain
      = count_occ string_dec (dns_queries p) domain
    ∧ (key = domain → v = b ∧ dns_queries p' = dns_queries p).
Proof.
  intros Hkey [Hnd Hlen] (front & back & Hc & Hfront).
  assert (Hkeys : map fst (mx_cache p) = map fst front ++ domain :: map fst back)
    by (rewrite Hc, map_app; reflexivity).
  assert (Hnd' := Hnd). rewrite Hkeys in Hnd'.
  apply NoDup_app in Hnd' as (Hndf & Hdisj & Hndb).
  destruct (string_dec key domain) as [->|Hne].
  - assert (Hget : cache_get domain (mx_cache p) = Some b).
    { rewrite Hc. apply cache_get_behind. intros Hin. apply (Hdisj _ Hin). left. }
    rewrite (lru_cache_hit _ _ _ _ _ Hget).
    destruct (cache_del_NoDup domain _ Hnd) as [Hnd1 Hnot].
    eexists _, _. split; [reflexivity|]. split; [|split; [|split]].
    + split; simpl; [apply NoDup_cons; split; assumption|].
      rewrite (cache_del_length _ _ _ Hget). exact Hlen.
    + exists [], (cache_del domain (mx_cache p)).
      split; [reflexivity | intros k []%elem_of_nil].
    + reflexivity.
    + intros _. split; reflexivity.
  - destruct Hkey as [Hkey|Hkey]; [|contradiction].
    destruct (cache_get key (mx_cache p)) as [v|] eqn:Hget.
    + rewrite (lru_cache_hit _ _ _ _ _ Hget).
      destruct (cache_del_NoDup key _ Hnd) as [Hnd1 Hnot].
      eexists _, _. split; [reflexivity|]. split; [|split; [|split]].
      * split; simpl; [apply NoDup_cons; split; assumption|].
        rewrite (cache_del_length _ _ _ Hget). exact Hlen.
      * destruct (cache_del_behind key domain b front back Hne)
          as (front' & back' & Heq & Hsub).
        exists ((key, v) :: front'), back'. simpl. rewrite Hc, Heq.
        split; [reflexivity|].
        intros k [->|Hk]%elem_of_cons; [exact Hkey | exact (Hfront k (Hsub k Hk))].
      * reflexivity.
      * intros ->. contradiction.
    + rewrite (lru_cache_miss _ _ _ _ _ _ Hget (has_mx_record__wrapped_run _ _ _) eq_refl).
      apply cache_get_None in Hget.
      assert (Hshort : length (key :: map fst front) < maxsize).
      { apply seen_keys_short.
        - apply NoDup_cons. split; [|exact Hndf].
          intros Hin. apply Hget. rewrite Hkeys. apply elem_of_app. left. exact Hin.
        - intros k [->|Hk]%elem_of_cons; [exact Hkey | exact (Hfront k Hk)]. }
      simpl in Hshort. rewrite length_map in Hshort.
      assert (Hclen : length (mx_cache p) = length front + S (length back))
        by (rewrite Hc, length_app; reflexivity).
      eexists _, _. split; [reflexivity|]. split; [|split; [|split]].
      * split; simpl.
        -- apply NoDup_cons.
           destruct (Nat.leb_spec maxsize (length (mx_cache p))); split;
             [intros Hin; apply Hget, removelast_keys, Hin
             | apply removelast_keys_NoDup, Hnd | exact Hget | exact Hnd].
        -- destruct (Nat.leb_spec maxsize (length (mx_cache p)));
             [rewrite removelast_length|]; lia.
      * destruct (Nat.leb_spec maxsize (length (mx_cache p))) as [Hfull|_].
        -- exists ((key, mx_of (dns (length (dns_queries p)) key)) :: front),
             (removelast back).
           simpl. split.
           ++ rewrite Hc. destruct back as [|e back]; [simpl in Hclen; lia|].
              rewrite removelast_app by discriminate. reflexivity.
           ++ intros k [->|Hk]%elem_of_cons; [exact Hkey | exact (Hfront k Hk)].
        -- exists ((key, mx_of (dns (length (dns_queries p)) key)) :: front), back.
           simpl. rewrite Hc. split; [reflexivity|].
           intros k [->|Hk]%elem_of_cons; [exact Hkey | exact (Hfront k Hk)].
      * cbn [dns_queries set_mx_cache set_dns_queries].
        apply count_occ_cons_neq. exact Hne.
      * intros ->. contradiction.
Qed.

(** The first lookup of [domain] caches it, with at most one query. *)
Lemma lru_cache_first p :
  lru_wf maxsize p →
  ∃ v p',
    lru_cache maxsize (has_mx_record__wrapped dns) domain p = (Return v, p')
    ∧ lru_wf maxsize p' ∧ cached_behind seen domain v p'
    ∧ count_occ string_dec (dns_queries p') domain
      ≤ S (count_occ string_dec (dns_queries p) domain).
Proof.
  intros [Hnd Hlen].
  destruct (cache_get domain (mx_cache p)) as [v|] eqn:Hget.
  - rewrite (lru_cache_hit _ _ _ _ _ Hget).
    destruct (cache_del_NoDup domain _ Hnd) as [Hnd1 Hnot].
    eexists _, _. split; [reflexivity|]. split; [|split].
    + split; simpl; [apply NoDup_cons; split; assumption|].
      rewrite (cache_del_length _ _ _ Hget). exact Hlen.
    + exists [], (cache_del domain (mx_cache p)).
      split; [reflexivity | intros k []%elem_of_nil].
    + simpl. lia.
  - rewrite (lru_cache_miss _ _ _ _ _ _ Hget (has_mx_record__wrapped_run _ _ _) eq_refl).
    apply cache_get_None in Hget.
    eexists _, _. split; [reflexivity|]. split; [|split].
    + split; simpl.
      * apply NoDup_cons.
        destruct (Nat.leb_spec maxsize (length (mx_cache p))); split;
          [intros Hin; apply Hget, removelast_keys, Hin
          | apply removelast_keys_NoDup, Hnd | exact Hget | exact Hnd].
      * destruct (Nat.leb_spec maxsize (length (mx_cache p)));
          [rewrite removelast_length|]; lia.
    + eexists [], _. split; [reflexivity | intros k []%elem_of_nil].
    + cbn [dns_queries set_mx_cache set_dns_queries].
      rewrite count_occ_cons_eq by reflexivity. lia.
Qed.

End Recency.

(** ** Repeated lookups *)

Lemma lookups_cons dns d rest p b p1 bs p2 :
  has_mx_record dns d p = (Return b, p1) →
  lookups dns rest p1 = (Return bs, p2) →
  lookups dns (d :: rest) p = (Return (b :: bs), p2).
Proof.
  intros H1 H2. cbn [lookups]. run_py. rewrite H1, H2. reflexivity.
Qed.

(** Lookups of fewer than a thousand distinct domains do not push a cached
    domain out. *)
Lemma lookups_keep_cached dns seen domain b :
  length (remove_dups seen) < 1000 →
  ∀ ks p,
    (∀ k, k ∈ ks → k ∈ seen) →
    lru_wf 1000 p → cached_behind seen domain b p →
    ∃ bs p',
      lookups dns ks p = (Return bs, p')
      ∧ lru_wf 1000 p' ∧ cached_behind seen domain b p'
      ∧ count_occ string_dec (dns_queries p') domain
        = count_occ string_dec (dns_queries p) domain.
Proof.
  intros Hroom. induction ks as [|k ks IH]; intros p Hks Hwf Hbehind.
  - exists [], p. repeat split; try assumption; apply Hwf.
  - destruct (lru_cache_step dns 1000 seen domain b Hroom k p) as (v & p1 & H1 & Hwf1 & Hb1 & Hq1 & _);
      [left; apply Hks; left | exact Hwf | exact Hbehind |].
    destruct (IH p1) as (bs & p2 & H2 & Hwf2 & Hb2 & Hq2);
      [intros k' Hk'; apply Hks; right; exact Hk' | exact Hwf1 | exact Hb1 |].
    exists (v :: bs), p2. split; [exact (lookups_cons _ _ _ _ _ _ _ _ H1 H2)|].
    split; [exact Hwf2|]. split; [exact Hb2|]. rewrite Hq2. exact Hq1.
Qed.

(** The cache never holds more than a thousand entries. *)
Lemma lookups_wf dns ks : ∀ p, lru_wf 1000 p → lru_wf 1000 (snd (lookups dns ks p)).
Proof.
  assert (Hroom : length (remove_dups ([] : list string)) < 1000) by (cbn; lia).
  induction ks as [|k ks IH]; intros p Hwf; [exact Hwf|].
  destruct (lru_cache_first dns 1000 [] k Hroom p Hwf) as (v & p1 & H1 & Hwf1 & _).
  specialize (IH p1 Hwf1). destruct (lookups dns ks p1) as [[bs|e] p2] eqn:H2.
  - rewrite (lookups_cons _ _ _ _ _ _ _ _ H1 H2). exact IH.
  - cbn [lookups]. run_py. unfold has_mx_record. rewrite H1, H2. exact IH.
Qed.

(** C7 fails as stated: a thousand other domains looked up between two
    lookups of [example.com] push its entry out of the cache, so that the
    second lookup sends a second query, and with a name server that has gone
    silent meanwhile it returns another result than the first. *)
Lemma C7_counterexample :
  let run := lookups flaky_dns crowded_trace boot in
  head (returned [] run) = Some true
  ∧ last (returned [] run) = Some false
  ∧ count_occ string_dec (dns_queries (snd run)) "example.com" = 2.
Proof. vm_compute. repeat split. Qed.

(** C7, amended: while fewer than a thousand distinct domains are looked up
    between two lookups of a domain, the second lookup returns what the first
    returned, true or false, and sends no query, so that at most one query is
    sent for the domain; the cache never holds more than a thousand entries: a
    hit makes the entry the most recently used one and a miss on a full cache
    drops the least recently used one. *)
Theorem C7_memoised_while_cached (dns : resolver) (p : process) (domain : string)
    (others : list string) :
  lru_wf 1000 p →
  length (remove_dups others) < 1000 →
  (∃ b p1 bs p2 p3,
      has_mx_record dns domain p = (Return b, p1)
      ∧ lookups dns others p1 = (Return bs, p2)
      ∧ has_mx_record dns domain p2 = (Return b, p3)
      ∧ dns_queries p3 = dns_queries p2
      ∧ count_occ string_dec (dns_queries p3) domain
        ≤ S (count_occ string_dec (dns_queries p) domain)
      ∧ lru_wf 1000 p3)
  ∧ (∀ ks, length (mx_cache (snd (lookups dns ks boot))) ≤ 1000)
  ∧ (∀ key v, cache_get key (mx_cache p) = Some v →
       has_mx_record dns key p
       = (Return v, set_mx_cache ((key, v) :: cache_del key (mx_cache p)) p))
  ∧ (∀ key, cache_get key (mx_cache p) = None → length (mx_cache p) = 1000 →
       ∃ v p', has_mx_record dns key p = (Return v, p')
               ∧ mx_cache p' = (key, v) :: removelast (mx_cache p)).
Proof.
  intros Hwf Hroom. split; [|split; [|split]].
  - destruct (lru_cache_first dns 1000 others domain Hroom p Hwf)
      as (b & p1 & H1 & Hwf1 & Hb1 & Hq1).
    destruct (lookups_keep_cached dns others domain b Hroom others p1
                (λ k Hk, Hk) Hwf1 Hb1) as (bs & p2 & H2 & Hwf2 & Hb2 & Hq2).
    destruct (lru_cache_step dns 1000 others domain b Hroom domain p2
                (or_intror eq_refl) Hwf2 Hb2) as (v & p3 & H3 & Hwf3 & _ & Hq3 & Hsame).
    destruct (Hsame eq_refl) as [-> Hqueries].
    exists b, p1, bs, p2, p3. repeat split; try assumption; try apply Hwf3.
    rewrite Hq3, Hq2. exact Hq1.
  - intros ks. apply (lookups_wf dns ks boot). split; [constructor | cbn; lia].
  - intros key v Hget. exact (has_mx_record_hit _ _ _ _ Hget).
  - intros key Hget Hfull. eexists _, _.
    split; [exact (has_mx_record_miss _ _ _ Hget)|].
    cbn [mx_cache set_mx_cache]. rewrite Hfull, Nat.leb_refl. reflexivity.
Qed.

Lemma C7_memoised_while_cached_witness :
  lru_wf 1000 boot
  ∧ length (remove_dups ["a.test"; "example.com"; "b.test"]) < 1000
  ∧ ∃ b p1 bs p2 p3,
      has_mx_record flaky_dns "example.com" boot = (Return b, p1)
      ∧ lookups flaky_dns ["a.test"; "example.com"; "b.test"] p1 = (Return bs, p2)
      ∧ has_mx_record flaky_dns "example.com" p2 = (Return b, p3)
      ∧ dns_queries p3 = dns_queries p2
      ∧ count_occ string_dec (dns_queries p3) "example.com"
        ≤ S (count_occ string_dec (dns_queries boot) "example.com")
      ∧ lru_wf 1000 p3.
Proof.
  assert (H1 : lru_wf 1000 boot) by (split; [constructor | cbn; lia]).
  assert (H2 : length (remove_dups ["a.test"; "example.com"; "b.test"]) < 1000)
    by (vm_compute; lia).
  split; [exact H1|]. split; [exact H2|].
  exact (proj1 (C7_memoised_while_cached flaky_dns boot "example.com"
                  ["a.test"; "example.com"; "b.test"] H1 H2)).
Defined.


(** ** Worked examples *)

Example split_at_sign : split "@" "a@b@C.com" = ["a"; "b"; "C.com"].
Proof. reflexivity. Qed.

Example split_without_separator : split "." "localhost" = ["localhost"].
Proof. reflexivity. Qed.

Example splitlines_crlf :
  splitlines ("a.com" +:+ String "013" (String "010" "") +:+ String "010" "b.com"
              +:+ String "010" "")
  = ["a.com"; ""; "b.com"].
Proof. reflexivity. Qed.

Example stripped_lines_example :
  stripped_lines ["  Foo.ORG "; ""; "   "; "bar.net"] = ["foo.org"; "bar.net"].
Proof. reflexivity. Qed.

(** A JSON list with a number in it: the names before the number are in the
    set, the source is reported as an error and the names after the number
    are lost. *)
Example loader_on_mixed_network :
  update_disposable_list mixed_network []
  = (Return {[ "mailinator.com" ]},
     [ LoaderError (hd "" DISPOSABLE_LIST_URLS) TypeError;
       LoaderFailed (nth 1 DISPOSABLE_LIST_URLS "") 404;
       LoaderFailed (nth 2 DISPOSABLE_LIST_URLS "") 404 ]).
Proof. vm_compute. reflexivity. Qed.

(** With every source down the refresh keeps the list loaded before. *)
Example refresh_on_dead_network :
  let p := set_disposable_domains {[ "mailinator.com" ]} boot in
  fetched dead_network = ∅
  ∧ disposable_domains (snd (refresh_iteration dead_network p)) = {[ "mailinator.com" ]}
  ∧ disposable_domains (snd (load_disposable_domains dead_network p)) = ∅.
Proof. vm_compute. repeat split. Qed.

Example validate_gmail :
  fst (validate_email gmail_dns "Ada@Gmail.com" boot)
  = Return {| email := "Ada@Gmail.com"; valid_format := true; disposable := false;
              mx_found := true; score := "100 (High trust: valid format, likely safe)" |}.
Proof. reflexivity. Qed.

Example validate_promo_xyz :
  fst (validate_email gmail_dns "user@promo.XYZ" boot)
  = Return {| email := "user@promo.XYZ"; valid_format := true; disposable := true;
              mx_found := false; score := "20 (Very low trust: likely fake or invalid)" |}.
Proof. reflexivity. Qed.

(** Two threads that look the same domain up at the same time both miss the
    cache and both query the resolver; the entry is stored once. *)
Example concurrent_lookups_query_twice :
  let run := run_threads gmail_dns [0; 1; 0; 1] [Queued "a@x.com"; Queued "b@x.com"] boot in
  dns_queries (snd run) = ["x.com"; "x.com"]
  ∧ mx_cache (snd run) = [("x.com", false)].
Proof. vm_compute. split; reflexivity. Qed.

(** The resolver of the examples answers the same at all times, and the
    empty cache agrees with any resolver. *)
Example gmail_dns_is_steady : steady gmail_dns ∧ cache_sound gmail_dns boot.
Proof.
  split; [intros n m domain; reflexivity | intros domain v Hin; inversion Hin].
Qed.


(** * Further properties of the code *)

(** ** Startup and the union of the sources *)

(** [load_disposable_domains] publishes what the fetch returns, the empty set
    included, and touches neither the MX cache nor the resolver. *)
Theorem X1_load_publishes_even_empty (get : network) (p : process) :
  ∃ p',
    load_disposable_domains get p = (Return tt, p')
    ∧ disposable_domains p' = fetched get
    ∧ mx_cache p' = mx_cache p
    ∧ dns_queries p' = dns_queries p.
Proof.
  unfold load_disposable_domains. run_py.
  destruct (call_update_run get p) as [log Hlog]. rewrite Hlog.
  eexists. split; [reflexivity|]. simpl. repeat split.
Qed.

(** The set a fetch returns is the union of what the sources contribute: a
    source that fails takes nothing away from the others, and the order of the
    sources does not matter. *)
Theorem X2_fetch_is_union_of_sources (urls urls' : list string) (get : network)
    (out out' : list line) :
  let s := returned ∅ (update_disposable_list_from urls get out) in
  (∀ url, url ∈ urls → contribution get url ⊆ s)
  ∧ (∀ d, d ∈ s → ∃ url, url ∈ urls ∧ d ∈ contribution get url)
  ∧ (urls ≡ₚ urls' → returned ∅ (update_disposable_list_from urls' get out') = s).
Proof.
  destruct (update_disposable_list_from_run urls get out) as [log Hlog].
  destruct (update_disposable_list_from_run urls' get out') as [log' Hlog'].
  cbv zeta. rewrite Hlog, Hlog'. unfold returned. cbn [fst].
  split; [|split].
  - intros url Hurl d Hd. apply elem_of_union_list.
    exists (contribution get url). split; [|exact Hd].
    apply list_elem_of_fmap. exists url. split; [reflexivity | exact Hurl].
  - intros d (X & HX & Hd)%elem_of_union_list.
    apply list_elem_of_fmap in HX as (url & -> & Hurl). eauto.
  - intros Hperm. apply set_eq. intros d. rewrite !elem_of_union_list.
    split; intros (X & HX & Hd); exists X; (split; [|exact Hd]).
    + rewrite Hperm. exact HX.
    + rewrite <- Hperm. exact HX.
Qed.

(** ** The structured mode *)

Lemma yielded_strings (strs : list string) :
  yielded (map str_lower (map JString strs)) = list_to_set (map lower strs)
  ∧ exhausted (map str_lower (map JString strs)) = Return tt.
Proof.
  induction strs as [|s strs [IHy IHe]]; [split; reflexivity|].
  simpl. rewrite IHy. split; [reflexivity | exact IHe].
Qed.

Lemma yielded_until_bad (pre : list string) bad post :
  (∀ s, bad ≠ JString s) →
  yielded (map str_lower ((map JString pre) ++ bad :: post)) = list_to_set (map lower pre)
  ∧ exhausted (map str_lower ((map JString pre) ++ bad :: post)) = Raise TypeError.
Proof.
  intros Hbad. induction pre as [|s pre [IHy IHe]].
  - simpl. destruct bad as [| | |s| |]; try (split; reflexivity).
    destruct (Hbad s eq_refl).
  - simpl. rewrite IHy. split; [reflexivity | exact IHe].
Qed.

(** A JSON source that answers 200 with a list of strings is counted as
    fetched and contributes the lowercase form of every string of the list. *)
Theorem X3_json_list_of_strings (get : network) (url : string) (r : response)
    (strs : list string) :
  endswith url ".json" = true →
  get url = Return r →
  status_code r = 200%Z →
  json r = Return (JArray (map JString strs)) →
  contribution get url = list_to_set (map lower strs)
  ∧ source_succeeded get url.
Proof.
  intros Hmode Hget Hok Hjson.
  destruct (yielded_strings strs) as [Hy He].
  unfold contribution, source_succeeded, fetch_source, print. run_py.
  rewrite Hget, Hok, Hmode, Hjson. simpl. rewrite set_update_run, Hy, He. simpl.
  split; [set_solver | eauto].
Qed.

Lemma X3_json_list_of_strings_witness :
  endswith (hd "" DISPOSABLE_LIST_URLS) ".json" = true
  ∧ status_code {| status_code := 200; text := "";
                   json := Return (JArray (map JString ["Mailinator.com"; "YOPmail.com"])) |}
    = 200%Z
  ∧ contribution
      (λ _, Return {| status_code := 200; text := "";
                      json := Return (JArray (map JString ["Mailinator.com"; "YOPmail.com"])) |})
      (hd "" DISPOSABLE_LIST_URLS)
    = list_to_set (map lower ["Mailinator.com"; "YOPmail.com"]).
Proof.
  split; [reflexivity|]. split; [reflexivity|].
  exact (proj1 (X3_json_list_of_strings
                  (λ _, Return {| status_code := 200; text := "";
                                  json := Return (JArray (map JString ["Mailinator.com"; "YOPmail.com"])) |})
                  (hd "" DISPOSABLE_LIST_URLS) _ ["Mailinator.com"; "YOPmail.com"]
                  eq_refl eq_refl eq_refl eq_refl)).
Defined.

(** An element that is not a string stops the update of the set with a
    [TypeError]: the strings before it stay in the set, the elements after it
    are not read, and the source is not counted as fetched. *)
Theorem X4_json_update_stops_at_non_string (get : network) (url : string)
    (r : response) (pre : list string) (bad : json_value) (post : list json_value) :
  endswith url ".json" = true →
  get url = Return r →
  status_code r = 200%Z →
  json r = Return (JArray ((map JString pre) ++ bad :: post)) →
  (∀ s, bad ≠ JString s) →
  contribution get url = list_to_set (map lower pre)
  ∧ (∃ st, fetch_source get url {| disposable_set := ∅; stdout := [] |}
           = (Raise TypeError, st))
  ∧ ¬ source_succeeded get url.
Proof.
  intros Hmode Hget Hok Hjson Hbad.
  destruct (yielded_until_bad pre bad post Hbad) as [Hy He].
  unfold contribution, source_succeeded, fetch_source, print. run_py.
  rewrite Hget, Hok, Hmode, Hjson. simpl. rewrite set_update_run, Hy, He. simpl.
  split; [set_solver|]. split; [eauto|]. intros (st & Habs & _). discriminate Habs.
Qed.

Lemma X4_json_update_stops_at_non_string_witness :
  endswith (hd "" DISPOSABLE_LIST_URLS) ".json" = true
  ∧ (∀ s, JNumber 5 ≠ JString s)
  ∧ contribution mixed_network (hd "" DISPOSABLE_LIST_URLS)
    = list_to_set (map lower ["Mailinator.com"]).
Proof.
  assert (H : ∀ s, JNumber 5 ≠ JString s) by (intros s; discriminate).
  split; [reflexivity|]. split; [exact H|].
  exact (proj1 (X4_json_update_stops_at_non_string mixed_network
                  (hd "" DISPOSABLE_LIST_URLS) _ ["Mailinator.com"] (JNumber 5)
                  [JString "yopmail.com"] eq_refl eq_refl eq_refl eq_refl H)).
Defined.

(** ** The line-delimited mode *)

Lemma no_linebreak_cons c s :
  no_linebreak (String c s) → is_linebreak c = false ∧ no_linebreak s.
Proof.
  intros H. split; [apply H; left; reflexivity|].
  intros c' Hc'. apply H. right. exact Hc'.
Qed.

(** A piece without line boundary, followed by a line feed, is one line. *)
Lemma splitlines_from_line line : ∀ cur rest,
  no_linebreak line →
  splitlines_from cur (line +:+ String LF rest)
  = (cur +:+ line) :: splitlines_from "" rest.
Proof.
  induction line as [|c line IH]; intros cur rest Hline.
  - rewrite append_nil_r. reflexivity.
  - apply no_linebreak_cons in Hline as [Hc Hline].
    rewrite append_cons. cbn [splitlines_from]. rewrite Hc.
    rewrite (IH _ _ Hline), append_assoc. reflexivity.
Qed.

(** What follows a line feed is split on its own. *)
Lemma splitlines_from_after_LF n : ∀ before cur rest,
  String.length before ≤ n →
  ∃ lines, splitlines_from cur ((before +:+ String LF "") +:+ rest)
           = lines ++ splitlines_from "" rest.
Proof.
  induction n as [|n IH]; intros before cur rest Hlen.
  - destruct before; [|simpl in Hlen; lia]. exists [cur]. reflexivity.
  - destruct before as [|c before]; [exists [cur]; reflexivity|].
    simpl in Hlen. rewrite !append_cons. cbn [splitlines_from].
    destruct (is_linebreak c).
    + destruct (ord c =? 13)%N.
      * destruct before as [|c' before].
        -- exists [cur]. reflexivity.
        -- rewrite !append_cons. destruct (ord c' =? 10)%N.
           ++ destruct (IH before "" rest) as [lines Hlines]; [simpl in Hlen; lia|].
              rewrite Hlines. exists (cur :: lines). reflexivity.
           ++ destruct (IH (String c' before) "" rest) as [lines Hlines]; [lia|].
              rewrite !append_cons in Hlines. rewrite Hlines.
              exists (cur :: lines). reflexivity.
      * destruct (IH before "" rest) as [lines Hlines]; [lia|].
        rewrite Hlines. exists (cur :: lines). reflexivity.
    + destruct (IH before (cur +:+ String c "") rest) as [lines Hlines]; [lia|].
      exists lines. exact Hlines.
Qed.

(** A line of the text, between the start or a line feed and a line feed, is
    one of the lines [splitlines] returns. *)
Lemma splitlines_has_line before line after :
  before = "" ∨ (∃ b, before = b +:+ String LF "") →
  no_linebreak line →
  line ∈ splitlines (before +:+ line +:+ String LF after).
Proof.
  intros [->|[b ->]] Hline; unfold splitlines.
  - change ("" +:+ line +:+ String LF after) with (line +:+ String LF after).
    rewrite (splitlines_from_line line "" after Hline). left.
  - destruct (splitlines_from_after_LF (String.length b) b "" (line +:+ String LF after))
      as [lines Hlines]; [lia|].
    rewrite Hlines, (splitlines_from_line line "" after Hline).
    apply elem_of_app. right. left.
Qed.

(** A text source that answers 200 contributes the trimmed lowercase form of
    each of its lines that holds more than blanks. *)
Theorem X5_text_line_is_loaded (get : network) (url : string) (r : response)
    (before line after : string) :
  endswith url ".json" = false →
  get url = Return r →
  status_code r = 200%Z →
  text r = before +:+ line +:+ String LF after →
  before = "" ∨ (∃ b, before = b +:+ String LF "") →
  no_linebreak line →
  strip line ≠ "" →
  lower (strip line) ∈ contribution get url.
Proof.
  intros Hmode Hget Hok Htext Hbefore Hline Hblank.
  rewrite (contribution_line_mode get url r Hmode Hget Hok), Htext.
  apply elem_of_list_to_set, stripped_lines_spec. exists line.
  split; [exact (splitlines_has_line before line after Hbefore Hline)|].
  split; [exact Hblank | reflexivity].
Qed.

Lemma X5_text_line_is_loaded_witness :
  let body := "# blocklist" +:+ String LF "" +:+ "  Mailinator.COM " +:+ String LF "" in
  let get : network := λ _, Return {| status_code := 200; text := body;
                                      json := Raise JSONDecodeError |} in
  endswith (nth 1 DISPOSABLE_LIST_URLS "") ".json" = false
  ∧ no_linebreak "  Mailinator.COM "
  ∧ strip "  Mailinator.COM " ≠ ""
  ∧ "mailinator.com" ∈ contribution get (nth 1 DISPOSABLE_LIST_URLS "").
Proof.
  assert (H1 : no_linebreak "  Mailinator.COM ").
  { intros c Hc. unfold occurs in Hc. simpl in Hc.
    repeat (destruct Hc as [<-|Hc]; [reflexivity|]). destruct Hc. }
  assert (H2 : strip "  Mailinator.COM " ≠ "") by discriminate.
  split; [reflexivity|]. split; [exact H1|]. split; [exact H2|].
  exact (X5_text_line_is_loaded
           (λ _, Return {| status_code := 200;
                           text := "# blocklist" +:+ String LF "" +:+ "  Mailinator.COM "
                                   +:+ String LF "";
                           json := Raise JSONDecodeError |})
           (nth 1 DISPOSABLE_LIST_URLS "") _ ("# blocklist" +:+ String LF "")
           "  Mailinator.COM " "" eq_refl eq_refl eq_refl eq_refl
           (or_intror (ex_intro _ "# blocklist" eq_refl)) H1 H2).
Defined.

(** ** The output of the loader *)

(** One source: the set grows by its contribution and one line is printed,
    the one its outcome calls for. *)
Lemma try_source_run get url :
  ∃ l, reports get url l
       ∧ ∀ st, try_except (fetch_source get url) (λ e, print (LoaderError url e)) st
               = (Return tt,
                  {| disposable_set := contribution get url ∪ disposable_set st;
                     stdout := stdout st ++ [l] |}).
Proof.
  unfold reports, source_succeeded, contribution, fetch_source, print. run_py.
  assert (Hl : ∀ X : gset string, ∅ ∪ X = X) by (intros; set_solver).
  assert (Hr : ∀ X Y : gset string, (X ∪ ∅) ∪ Y = X ∪ Y) by (intros; set_solver).
  destruct (get url) as [r|e] eqn:Hget; simpl.
  - destruct (Z.eqb_spec (status_code r) 200) as [Hok|Hbad]; simpl.
    + destruct (endswith url ".json"); simpl.
      * destruct (json r) as [data|e]; simpl.
        -- destruct (iter data) as [items|e]; simpl.
           ++ rewrite set_update_run. simpl.
              destruct (exhausted (map str_lower items)) as [[]|e] eqn:He.
              ** exists (LoaderFetched url). split; [left; eauto|].
                 intros st. rewrite set_update_run, He. simpl. rewrite Hr. reflexivity.
              ** exists (LoaderError url e). split; [right; right; eauto|].
                 intros st. rewrite set_update_run, He. simpl. rewrite Hr. reflexivity.
           ++ exists (LoaderError url e). split; [right; right; eauto|].
              intros st. rewrite Hl. destruct st; reflexivity.
        -- exists (LoaderError url e). split; [right; right; eauto|].
           intros st. rewrite Hl. destruct st; reflexivity.
      * rewrite set_update_run. simpl.
        destruct (exhausted _) as [[]|e] eqn:He.
        -- exists (LoaderFetched url). split; [left; eauto|].
           intros st. rewrite set_update_run, He. simpl. rewrite Hr. reflexivity.
        -- exists (LoaderError url e). split; [right; right; eauto|].
           intros st. rewrite set_update_run, He. simpl. rewrite Hr. reflexivity.
    + exists (LoaderFailed url (status_code r)). split; [right; left; eauto|].
      intros st. rewrite Hl. destruct st; reflexivity.
  - exists (LoaderError url e). split; [right; right; eauto|].
    intros st. rewrite Hl. destruct st; reflexivity.
Qed.

Lemma for_each_url_log get urls :
  ∃ log, Forall2 (reports get) urls log
         ∧ ∀ st, snd (for_each_url get urls st)
                 = {| disposable_set := ⋃ (contribution get <$> urls) ∪ disposable_set st;
                      stdout := stdout st ++ log |}.
Proof.
  induction urls as [|url rest (log & Hlog & IH)].
  - exists []. split; [constructor|]. intros [set out]. simpl.
    rewrite app_nil_r. f_equal. set_solver.
  - destruct (try_source_run get url) as (l & Hl & Hrun).
    exists (l :: log). split; [constructor; assumption|].
    intros st. cbn [for_each_url]. unfold mbind, Py_bind. rewrite Hrun, IH.
    cbn [disposable_set stdout fmap list_fmap union_list].
    rewrite <- app_assoc. f_equal. set_solver.
Qed.

(** The loader prints exactly one line per source, in the order of the
    sources, after what was printed before: [Fetched] for a source whose body
    ran to its end, [Failed] with the status for an answer other than 200,
    [Error] with the exception for a source that raised. *)
Theorem X6_one_report_per_source (urls : list string) (get : network) (out : list line) :
  ∃ s log,
    update_disposable_list_from urls get out = (Return s, out ++ log)
    ∧ length log = length urls
    ∧ Forall2 (reports get) urls log.
Proof.
  destruct (for_each_url_log get urls) as (log & Hlog & Hrun).
  destruct (update_disposable_list_from_run urls get out) as [log' Hlog'].
  exists (⋃ (contribution get <$> urls)), log.
  split; [|split; [symmetry; exact (Forall2_length _ _ _ Hlog) | exact Hlog]].
  rewrite Hlog'. f_equal. f_equal.
  unfold update_disposable_list_from in Hlog'. revert Hlog'. run_py.
  pose proof (Hrun {| disposable_set := ∅; stdout := out |}) as Hsnd.
  destruct (for_each_url get urls _) as [[[]|e] st]; simpl in *; subst st; simpl;
    intros [= _ H]; apply app_inv_head in H; congruence.
Qed.

(** ** The refresh loop over many turns *)

Lemma refresh_loop_step nets k t p :
  let q := snd (refresh_disposable_list_loop k nets t p) in
  disposable_domains (snd (refresh_disposable_list_loop (S k) nets t p))
  = if set_truthy (fetched (nets (t + k))) then fetched (nets (t + k))
    else disposable_domains q.
Proof.
  destruct (refresh_loop_snoc nets k t p) as (q & Hk & HSk).
  destruct (refresh_iteration_run (nets (t + k)) q) as [out Hout].
  cbv zeta. rewrite HSk, Hk, Hout. cbn [snd].
  destruct (set_truthy (fetched (nets (t + k)))); reflexivity.
Qed.

(** After any number of turns the published set is the most recent fetch that
    was not empty, or the set the loop started with if every fetch was empty;
    a set that is not empty never becomes empty. *)
Theorem X7_refresh_keeps_last_nonempty_fetch (nets : nat → network) (t k : nat)
    (p : process) :
  let q := snd (refresh_disposable_list_loop k nets t p) in
  ((∀ i, i < k → fetched (nets (t + i)) = ∅) →
   disposable_domains q = disposable_domains p)
  ∧ (∀ i, i < k → fetched (nets (t + i)) ≠ ∅ →
       (∀ j, i < j < k → fetched (nets (t + j)) = ∅) →
       disposable_domains q = fetched (nets (t + i)))
  ∧ (disposable_domains p ≠ ∅ → disposable_domains q ≠ ∅).
Proof.
  induction k as [|k (IH1 & IH2 & IH3)].
  - cbv zeta. split; [reflexivity|]. split; [intros i Hi; lia | intros H; exact H].
  - cbv zeta in *. rewrite refresh_loop_step. cbv zeta.
    destruct (set_truthy (fetched (nets (t + k)))) eqn:Hfull.
    + assert (Hne : fetched (nets (t + k)) ≠ ∅).
      { intros Habs. apply set_truthy_false in Habs. congruence. }
      split; [|split].
      * intros Hall. destruct Hne. apply Hall. lia.
      * intros i Hi Hi' Hlater. destruct (Nat.eq_dec i k) as [->|Hik]; [reflexivity|].
        destruct Hne. apply Hlater. lia.
      * intros _. exact Hne.
    + apply set_truthy_false in Hfull. split; [|split].
      * intros Hall. apply IH1. intros i Hi. apply Hall. lia.
      * intros i Hi Hi' Hlater. destruct (Nat.eq_dec i k) as [->|Hik]; [contradiction|].
        apply IH2; [lia | exact Hi' | intros j Hj; apply Hlater; lia].
      * exact IH3.
Qed.

(** ** Letter case of the address *)

Lemma lower_char_idempotent c : lower_char (lower_char c) = lower_char c.
Proof. destruct c as [[] [] [] [] [] [] [] []]; reflexivity. Qed.

Lemma lower_char_at_sign c : Ascii.eqb (lower_char c) "@" = Ascii.eqb c "@".
Proof. destruct c as [[] [] [] [] [] [] [] []]; reflexivity. Qed.

Lemma lower_idempotent s : lower (lower s) = lower s.
Proof.
  induction s as [|c s IH]; [reflexivity|].
  simpl. rewrite lower_char_idempotent, IH. reflexivity.
Qed.

Lemma lower_append a b : lower (a +:+ b) = lower a +:+ lower b.
Proof.
  induction a as [|c a IH]; [reflexivity|].
  rewrite append_cons. simpl. rewrite IH. reflexivity.
Qed.

(** Lowercasing neither makes nor removes an [@]. *)
Lemma split_from_lower s : ∀ cur,
  split_from "@" (lower cur) (lower s) = map lower (split_from "@" cur s).
Proof.
  induction s as [|c s IH]; intros cur; [reflexivity|].
  simpl. rewrite lower_char_at_sign. destruct (Ascii.eqb c "@").
  - simpl. f_equal. exact (IH "").
  - rewrite <- IH, lower_append. reflexivity.
Qed.

Lemma last_item_map_lower l : last_item (map lower l) = lower (last_item l).
Proof.
  unfold last_item. induction l as [|x [|y l] IH]; [reflexivity | reflexivity | exact IH].
Qed.

Lemma domain_of_lower email : domain_of (lower email) = domain_of email.
Proof.
  unfold domain_of, split.
  change (split_from "@" "" (lower email)) with (split_from "@" (lower "") (lower email)).
  rewrite split_from_lower, last_item_map_lower. apply lower_idempotent.
Qed.

Lemma is_disposable_lower published email :
  is_disposable published (lower email) = is_disposable published email.
Proof.
  unfold is_disposable, is_suspicious.
  change (lower (last_item (split "@" (lower email)))) with (domain_of (lower email)).
  rewrite domain_of_lower. reflexivity.
Qed.

(** Validation does not depend on the letter case of the address: the
    lowercased address gets the same flags and the same score, and leaves the
    process in the same state. *)
Theorem X8_validation_ignores_case (dns : resolver) (email : string) (p : process) :
  ∃ disposable mx_found p',
    validate_email dns email p = (Return (verdict email disposable mx_found), p')
    ∧ validate_email dns (lower email) p
      = (Return (verdict (lower email) disposable mx_found), p').
Proof.
  destruct (has_mx_record_returns dns (domain_of email) p) as (b & p' & Hrun & _).
  exists (is_disposable (disposable_domains p) email), b, p'.
  unfold validate_email. run_py.
  change (lower (last_item (split "@" (lower email)))) with (domain_of (lower email)).
  change (lower (last_item (split "@" email))) with (domain_of email).
  rewrite domain_of_lower, is_disposable_lower, Hrun. split; reflexivity.
Qed.

(** ** What a validation does to the process *)





(** ** Bulk validation under any schedule *)

Lemma lru_lookup_wf maxsize key q :
  lru_wf maxsize q → lru_wf maxsize (snd (lru_lookup key q)).
Proof.
  intros [Hnd Hlen]. rewrite lru_lookup_run.
  destruct (cache_get key (mx_cache q)) as [v|] eqn:Hget; [|split; assumption].
  destruct (cache_del_NoDup key _ Hnd) as [Hnd1 Hnot].
  split; simpl; [apply NoDup_cons; split; assumption|].
  rewrite (cache_del_length _ _ _ Hget). exact Hlen.
Qed.

Lemma lru_store_wf maxsize key v q :
  0 < maxsize → lru_wf maxsize q → lru_wf maxsize (snd (lru_store maxsize key v q)).
Proof.
  intros Hpos [Hnd Hlen]. rewrite lru_store_run. cbn [snd].
  destruct (cache_get key (mx_cache q)) eqn:Hget; [split; assumption|].
  apply cache_get_None in Hget. split; simpl.
  - apply NoDup_cons.
    destruct (Nat.leb_spec maxsize (length (mx_cache q))); split;
      [intros Hin; apply Hget, removelast_keys, Hin
      | apply removelast_keys_NoDup, Hnd | exact Hget | exact Hnd].
  - destruct (Nat.leb_spec maxsize (length (mx_cache q)));
      [rewrite removelast_length|]; lia.
Qed.

(** One atomic piece of any thread: it ends normally, leaves the published
    set and the output alone, keeps the cache in shape and queries at most
    the domain of the thread. *)
Lemma thread_step_keeps dns domains t q :
  ∃ t' q' sent,
    thread_step dns t q = (Return t', q')
    ∧ disposable_domains q' = disposable_domains q
    ∧ console q' = console q
    ∧ (lru_wf 1000 q → lru_wf 1000 q')
    ∧ dns_queries q' = sent ++ dns_queries q
    ∧ (thread_within domains t →
       thread_within domains t' ∧ ∀ d, d ∈ sent → d ∈ domains).
Proof.
  destruct t as [email|email disposable domain|r].
  - rewrite thread_step_queued. cbv zeta.
    pose proof (lru_lookup_wf 1000 (domain_of email) q) as Hwf.
    rewrite lru_lookup_run in Hwf.
    destruct (cache_get (domain_of email) (mx_cache q)) as [v|].
    + eexists _, _, []. split; [reflexivity|]. do 2 (split; [reflexivity|]).
      split; [exact Hwf|]. split; [reflexivity|].
      intros _. split; [exact I | intros d []%elem_of_nil].
    + eexists _, _, []. split; [reflexivity|]. do 2 (split; [reflexivity|]).
      split; [exact Hwf|]. split; [reflexivity|].
      intros Hin. split; [exact Hin | intros d []%elem_of_nil].
  - rewrite thread_step_resolving. cbv zeta.
    pose proof (lru_store_wf 1000 domain (mx_of (dns (length (dns_queries q)) domain))
                  (set_dns_queries (domain :: dns_queries q) q)) as Hwf.
    rewrite lru_store_run in Hwf |- *. cbn [snd] in *.
    eexists _, _, [domain]. split; [reflexivity|].
    split; [destruct (cache_get _ _); reflexivity|].
    split; [destruct (cache_get _ _); reflexivity|].
    split; [intros Hq; apply Hwf; [lia | exact Hq]|].
    split; [destruct (cache_get _ _); reflexivity|].
    intros Hin. split; [exact I|].
    intros d ->%list_elem_of_singleton. exact Hin.
  - eexists _, _, []. split; [reflexivity|]. do 2 (split; [reflexivity|]).
    split; [intros H; exact H|]. split; [reflexivity|].
    intros _. split; [exact I | intros d []%elem_of_nil].
Qed.

Lemma run_threads_keeps dns domains schedule : ∀ threads q,
  ∃ threads' q' sent,
    run_threads dns schedule threads q = (Return threads', q')
    ∧ disposable_domains q' = disposable_domains q
    ∧ console q' = console q
    ∧ (lru_wf 1000 q → lru_wf 1000 q')
    ∧ dns_queries q' = sent ++ dns_queries q
    ∧ (Forall (thread_within domains) threads → ∀ d, d ∈ sent → d ∈ domains).
Proof.
  induction schedule as [|i rest IH]; intros threads q.
  - exists threads, q, []. split; [reflexivity|]. do 2 (split; [reflexivity|]).
    split; [intros H; exact H|]. split; [reflexivity|].
    intros _ d []%elem_of_nil.
  - destruct (threads !! i) as [t|] eqn:Hi.
    + destruct (thread_step_keeps dns domains t q)
        as (t1 & q1 & sent1 & Hstep & Hdd1 & Hout1 & Hwf1 & Hq1 & Hin1).
      destruct (IH (<[i:=t1]> threads) q1)
        as (threads' & q' & sent & Hrun & Hdd & Hout & Hwf & Hq & Hin).
      exists threads', q', (sent ++ sent1).
      rewrite (run_threads_pick _ _ _ _ _ _ _ _ Hi Hstep).
      split; [exact Hrun|]. split; [congruence|]. split; [congruence|].
      split; [auto|]. split; [rewrite Hq, Hq1; apply app_assoc|].
      intros Hall d [Hd|Hd]%elem_of_app.
      * apply Hin; [|exact Hd]. apply Forall_insert; [exact Hall|].
        apply Hin1. exact (Forall_lookup_1 _ _ _ _ Hall Hi).
      * apply Hin1; [|exact Hd]. exact (Forall_lookup_1 _ _ _ _ Hall Hi).
    + destruct (IH threads q) as (threads' & q' & sent & Hrun & H).
      exists threads', q', sent. cbn [run_threads]. rewrite Hi. split; [exact Hrun | exact H].
Qed.

(** Whatever the schedule, complete or not, bulk validation ends normally,
    leaves the published set and the output alone, keeps the MX cache to
    distinct keys and at most a thousand entries, and queries the resolver
    for domains of the submitted addresses only. *)
Theorem X11_bulk_keeps_the_process_in_shape (dns : resolver) (schedule : list nat)
    (emails : list string) (p : process) :
  lru_wf 1000 p →
  ∃ out q sent,
    validate_bulk_emails dns schedule emails p = (Return out, q)
    ∧ disposable_domains q = disposable_domains p
    ∧ console q = console p
    ∧ lru_wf 1000 q
    ∧ dns_queries q = sent ++ dns_queries p
    ∧ ∀ d, d ∈ sent → ∃ email, email ∈ emails ∧ d = domain_of email.
Proof.
  intros Hwf0.
  destruct (run_threads_keeps dns (map domain_of emails) schedule (map Queued emails) p)
    as (threads & q & sent & Hrun & Hdd & Hout & Hwf & Hq & Hin).
  eexists _, q, sent. split.
  { unfold validate_bulk_emails. run_py. rewrite Hrun. reflexivity. }
  split; [exact Hdd|]. split; [exact Hout|]. split; [exact (Hwf Hwf0)|].
  split; [exact Hq|].
  intros d Hd.
  assert (Hall : Forall (thread_within (map domain_of emails)) (map Queued emails)).
  { apply Forall_forall. intros t (email & -> & Hemail)%list_elem_of_fmap.
    simpl. apply list_elem_of_fmap. exists email. split; [reflexivity | exact Hemail]. }
  apply (Hin Hall) in Hd. apply list_elem_of_fmap in Hd as (email & -> & Hemail).
  exists email. split; [exact Hemail | reflexivity].
Qed.

Lemma X11_bulk_keeps_the_process_in_shape_witness :
  lru_wf 1000 boot
  ∧ ∃ out q sent,
      validate_bulk_emails gmail_dns [1; 0; 1] ["a@x.com"; "b@gmail.com"] boot
      = (Return out, q)
      ∧ disposable_domains q = disposable_domains boot
      ∧ console q = console boot
      ∧ lru_wf 1000 q
      ∧ dns_queries q = sent ++ dns_queries boot
      ∧ ∀ d, d ∈ sent → ∃ email, email ∈ ["a@x.com"; "b@gmail.com"] ∧ d = domain_of email.
Proof.
  assert (H : lru_wf 1000 boot) by (split; [constructor | cbn; lia]).
  split; [exact H|].
  exact (X11_bulk_keeps_the_process_in_shape gmail_dns [1; 0; 1]
           ["a@x.com"; "b@gmail.com"] boot H).
Defined.

(** An empty batch returns an empty list of results, whatever the schedule,
    and leaves the process as it is: no query, no change of the cache. *)
Theorem X12_bulk_of_nothing (dns : resolver) (schedule : list nat) (p : process) :
  validate_bulk_emails dns schedule [] p = (Return (Some {| results := [] |}), p).
Proof.
  assert (Hrun : run_threads dns schedule [] p = (Return [], p)).
  { induction schedule as [|i rest IH]; [reflexivity | exact IH]. }
  unfold validate_bulk_emails. run_py.
  change (map Queued []) with (@nil thread). rewrite Hrun. reflexivity.
Qed.

(** ** More on the MX cache *)

Lemma cache_get_del_other key k cache :
  k ≠ key → cache_get k (cache_del key cache) = cache_get k cache.
Proof.
  intros Hne. induction cache as [|[k0 w] rest IH]; [reflexivity|]. simpl.
  destruct (String.eqb_spec k0 key) as [->|Hk0].
  - destruct (String.eqb_spec key k) as [->|_]; [contradiction | reflexivity].
  - simpl. rewrite IH. reflexivity.
Qed.

(** While the cache holds fewer than a thousand entries, a lookup of any
    domain keeps every entry that was cached, with its value. *)
Theorem X13_lookup_keeps_entries_below_capacity (dns : resolver) (key : string)
    (p : process) (k : string) (v : bool) :
  length (mx_cache p) < 1000 →
  cache_get k (mx_cache p) = Some v →
  cache_get k (mx_cache (snd (has_mx_record dns key p))) = Some v.
Proof.
  intros Hroom Hk.
  destruct (cache_get key (mx_cache p)) as [w|] eqn:Hget.
  - rewrite (has_mx_record_hit _ _ _ _ Hget). cbn [snd mx_cache set_mx_cache cache_get].
    destruct (String.eqb_spec key k) as [->|Hne]; [congruence|].
    rewrite cache_get_del_other by congruence. exact Hk.
  - rewrite (has_mx_record_miss _ _ _ Hget). cbn [snd mx_cache set_mx_cache cache_get].
    destruct (String.eqb_spec key k) as [->|Hne]; [congruence|].
    destruct (Nat.leb_spec 1000 (length (mx_cache p))); [lia | exact Hk].
Qed.

Lemma X13_lookup_keeps_entries_below_capacity_witness :
  let p := set_mx_cache [("gmail.com", true)] boot in
  length (mx_cache p) < 1000
  ∧ cache_get "gmail.com" (mx_cache p) = Some true
  ∧ cache_get "gmail.com" (mx_cache (snd (has_mx_record flaky_dns "x.com" p))) = Some true.
Proof.
  assert (H : length (mx_cache (set_mx_cache [("gmail.com", true)] boot)) < 1000)
    by (cbn; lia).
  split; [exact H|]. split; [reflexivity|].
  exact (X13_lookup_keeps_entries_below_capacity flaky_dns "x.com"
           (set_mx_cache [("gmail.com", true)] boot) "gmail.com" true H eq_refl).
Defined.



(** ** Refresh and validation together *)

(** A refresh that fetched a set that is not empty replaces the list: an
    address whose domain is not in the new set, and whose last label is not a
    suspicious one, is not flagged afterwards, whatever the list held
    before. *)
Theorem X15_dropped_domain_is_cleared_by_refresh (get : network) (dns : resolver)
    (email : string) (p : process) :
  fetched get ≠ ∅ →
  domain_of email ∉ fetched get →
  is_suspicious email = false →
  ∃ p1 r p2,
    refresh_iteration get p = (Return tt, p1)
    ∧ validate_email dns email p1 = (Return r, p2)
    ∧ disposable r = false.
Proof.
  intros Hfull Hout Htld.
  destruct (refresh_iteration_run get p) as [out Hrun].
  destruct (set_truthy (fetched get)) eqn:Ht;
    [|apply set_truthy_false in Ht; contradiction].
  destruct (validate_email_returns dns email
              (set_console out (set_disposable_domains (fetched get) p)))
    as (mx & p2 & Hval).
  eexists _, _, p2. split; [exact Hrun|]. split; [exact Hval|].
  cbn [disposable verdict disposable_domains set_console set_disposable_domains].
  unfold is_disposable. rewrite Htld, orb_false_r.
  apply bool_decide_eq_false. exact Hout.
Qed.

Lemma X15_dropped_domain_is_cleared_by_refresh_witness :
  let p := set_disposable_domains {[ "old.example" ]} boot in
  fetched mixed_network ≠ ∅
  ∧ (domain_of "ann@old.example" ∉ fetched mixed_network)
  ∧ is_suspicious "ann@old.example" = false
  ∧ ∃ p1 r p2,
      refresh_iteration mixed_network p = (Return tt, p1)
      ∧ validate_email gmail_dns "ann@old.example" p1 = (Return r, p2)
      ∧ disposable r = false.
Proof.
  assert (H1 : fetched mixed_network ≠ ∅).
  { intros Habs. apply set_truthy_false in Habs. vm_compute in Habs. discriminate Habs. }
  assert (H2 : domain_of "ann@old.example" ∉ fetched mixed_network).
  { apply (bool_decide_unpack _). vm_compute. exact I. }
  assert (H3 : is_suspicious "ann@old.example" = false) by (vm_compute; reflexivity).
  split; [exact H1|]. split; [exact H2|]. split; [exact H3|].
  exact (X15_dropped_domain_is_cleared_by_refresh mixed_network gmail_dns
           "ann@old.example" (set_disposable_domains {[ "old.example" ]} boot) H1 H2 H3).
Defined.
